(** * splurge_base58: the Base58 codec and its command-line interface

    The command-line layer ([cli.py]) is embedded from its source.  The codec
    it imports ([splurge_base58.base58]: the class [Base58] and the exception
    [Base58Error]) is not among the available sources; it is modelled from the
    specification and every such definition says so. *)

From Stdlib Require Import Ascii String.
From Stdlib Require Import NArith ZArith List Bool Lia.
From Stdlib Require DecimalString.
Import ListNotations.

Set Implicit Arguments.

(** ** Python data *)

(** A Python [str] is a sequence of Unicode code points, a [bytes] object a
    sequence of 8-bit values. *)
Definition char := N.
Definition str := list char.
Definition bytes := list Byte.byte.

(** A string literal of the source (all of them are ASCII). *)
Definition lit (s : string) : str := map N_of_ascii (list_ascii_of_string s).

Definition byte_of_N (n : N) : Byte.byte :=
  match Byte.of_N (n mod 256) with
  | Some b => b
  | None => Byte.x00
  end.

(** [str(n)] for a non-negative [int]. *)
Definition str_of_nat (n : nat) : str :=
  lit (DecimalString.NilZero.string_of_uint (Nat.to_uint n)).

Definition str_eqb (s t : str) : bool :=
  if list_eq_dec N.eq_dec s t then true else false.

(** The outcome of a call that may raise. *)
Inductive result (E A : Type) : Type :=
| Ok (a : A)
| Err (e : E).
Arguments Ok {E A} a.
Arguments Err {E A} e.

(** ** Positional numerals over unbounded integers *)

Section Radix.
Variable base : N.

(** [while n > 0: n, r = divmod(n, base)], the remainders in the order they
    are produced (least significant first). *)
Fixpoint divmod_digits (fuel : nat) (n : N) : list N :=
  match fuel with
  | O => []
  | S fuel' =>
      if (n =? 0)%N then []
      else (n mod base)%N :: divmod_digits fuel' (n / base)%N
  end.

(** The digits most significant first; the binary size of [n] bounds the
    number of divisions. *)
Definition to_digits (n : N) : list N :=
  rev (divmod_digits (N.to_nat (N.size n)) n).

(** [value = value * base + digit], left to right. *)
Definition from_digits (ds : list N) : N :=
  fold_left (fun v d => (v * base + d)%N) ds 0%N.
End Radix.

(** Number of leading elements of [l] equal to [x]. *)
Fixpoint count_leading (A : Type) (eqb : A -> A -> bool) (x : A) (l : list A) : nat :=
  match l with
  | [] => O
  | y :: l' => if eqb y x then S (count_leading eqb x l') else O
  end.

(** ** The codec *)

(** Modelled from the spec: the exception [Base58Error] of the absent
    [base58.py], with the two codec errors of the error taxonomy,
    LengthExceeded "reported with the observed length and the limit" and
    InvalidCharacter "reported with the character and its position", and
    with the error the codec raises on empty input: [test_cli.py] requires
    the commands to end with status 1 and an error line on an empty argument
    (test_encode_empty_string, test_decode_empty_string), which [cli.py]
    does only when the codec raises a [Base58Error] there. *)
Inductive Base58Error : Type :=
| LengthExceeded (observed limit : nat)
| InvalidCharacter (c : char) (position : nat)
| EmptyInput.

Module Base58.

(** Modelled from the spec: the alphabet of the absent [base58.py], "a fixed
    ordered sequence of 58 distinct characters" without [0], [O], [I], [l],
    whose zero-character is [1] and which yields the literal vectors of the
    spec ([encode(b"Hello") == "9Ajdvzr"]). *)
Definition ALPHABET : str :=
  lit "123456789ABCDEFGHJKLMNPQRSTUVWXYZabcdefghijkmnopqrstuvwxyz".

Definition BASE : N := N.of_nat (length ALPHABET).

(** "The character at alphabet position 0". *)
Definition ZERO_CHAR : char := nth 0 ALPHABET 0%N.

(** Modelled from the spec: "configurable maximum, default 2048 bytes". *)
Definition MAX_ENCODE_LENGTH : nat := 2048.

(** Position of [c] in [l], counted from [i]. *)
Fixpoint index_from (i : N) (c : char) (l : str) : option N :=
  match l with
  | [] => None
  | x :: l' => if (x =? c)%N then Some i else index_from (N.succ i) c l'
  end.

(** "Each character's position defining its numeric value 0-57". *)
Definition char_value (c : char) : option N := index_from 0%N c ALPHABET.

Definition value_char (d : N) : char := nth (N.to_nat d) ALPHABET ZERO_CHAR.

(** "Treat data as a big-endian unsigned integer". *)
Definition int_from_bytes (data : bytes) : N :=
  from_digits 256 (map Byte.to_N data).

(** "The minimal big-endian byte sequence (no artificial padding beyond what
    the magnitude requires)"; zero has no byte at all. *)
Definition int_to_bytes (n : N) : bytes :=
  map byte_of_N (to_digits 256 n).

(** Modelled from the spec: the algorithm of [encode] ("repeatedly divide by
    58, collecting remainders ... reversed", prefixed by one zero-character
    per leading [0x00] byte). *)
Definition encode_digits (data : bytes) : str :=
  let z := count_leading Byte.eqb Byte.x00 data in
  repeat ZERO_CHAR z ++ map value_char (to_digits BASE (int_from_bytes data)).

(** Modelled from the spec: [Base58.encode] of the absent [base58.py],
    [encode(bytes) -> string | Error{LengthExceeded}], with the length
    constraint enforced internally.  On empty data it raises: the spec's
    empty output is not what the program does, whose tests require an error
    (test_cli.py, test_encode_empty_string; api_usage.py lists empty bytes
    among the error cases). *)
Definition encode (data : bytes) : result Base58Error str :=
  match data with
  | [] => Err EmptyInput
  | _ :: _ =>
      if (MAX_ENCODE_LENGTH <? length data)%nat
      then Err (LengthExceeded (length data) MAX_ENCODE_LENGTH)
      else Ok (encode_digits data)
  end.

(** Modelled from the spec: "the maximum encoded-length achievable by
    encoding the maximum-length byte input", the length of the encoding of
    [MAX_ENCODE_LENGTH] bytes [0x61]. *)
Definition MAX_DECODE_LENGTH : nat :=
  length (encode_digits (repeat Byte.x61 MAX_ENCODE_LENGTH)).

(** The first character outside the alphabet, with its position. *)
Fixpoint first_invalid (pos : nat) (text : str) : option (char * nat) :=
  match text with
  | [] => None
  | c :: rest =>
      match char_value c with
      | Some _ => first_invalid (S pos) rest
      | None => Some (c, pos)
      end
  end.

Definition digit_value (c : char) : N :=
  match char_value c with
  | Some v => v
  | None => 0%N
  end.

(** Modelled from the spec: the algorithm of [decode] ("count leading
    zero-characters ... accumulating [value = value * 58 + char_index] ...
    then prepend [z] zero bytes"). *)
Definition decode_digits (text : str) : bytes :=
  let z := count_leading N.eqb ZERO_CHAR text in
  repeat Byte.x00 z
    ++ int_to_bytes (from_digits BASE (map digit_value (skipn z text))).

(** Modelled from the spec: [Base58.decode] of the absent [base58.py],
    [decode(string) -> bytes | Error{LengthExceeded, InvalidCharacter}].  The
    length is checked before the characters, as the command line does.  On
    the empty string it raises: the spec's empty result is not what the
    program does, whose tests require an error (test_cli.py,
    test_decode_empty_string; api_usage.py lists the empty string among the
    error cases). *)
Definition decode (text : str) : result Base58Error bytes :=
  match text with
  | [] => Err EmptyInput
  | _ :: _ =>
      if (MAX_DECODE_LENGTH <? length text)%nat
      then Err (LengthExceeded (length text) MAX_DECODE_LENGTH)
      else match first_invalid 0 text with
           | Some (c, pos) => Err (InvalidCharacter c pos)
           | None => Ok (decode_digits text)
           end
  end.

(** Modelled from the spec: [Base58.is_valid] of the absent [base58.py],
    "true iff text contains only alphabet characters (empty string is
    valid)", the character-set check alone. *)
Definition is_valid (text : str) : bool :=
  forallb (fun c => existsb (N.eqb c) ALPHABET) text.

End Base58.

(** ** UTF-8, as [str.encode('utf-8')] and [bytes.decode('utf-8')] do it *)

Definition is_surrogate (c : char) : bool :=
  ((0xD800 <=? c) && (c <=? 0xDFFF))%N.

(** A continuation byte carrying bits [6k+5 .. 6k] of the code point. *)
Definition utf8_tail (c : char) (k : N) : Byte.byte :=
  byte_of_N (N.lor 0x80 (N.land (N.shiftr c (6 * k)) 0x3F)).

(** The bytes of one code point; surrogates (and values beyond U+10FFFF,
    which no [str] holds) are not encodable. *)
Definition utf8_encode_char (c : char) : option bytes :=
  if (c <? 0x80)%N then Some [byte_of_N c]
  else if (c <? 0x800)%N then
    Some [byte_of_N (N.lor 0xC0 (N.shiftr c 6)); utf8_tail c 0]
  else if (c <? 0x10000)%N then
    if is_surrogate c then None
    else Some [byte_of_N (N.lor 0xE0 (N.shiftr c 12)); utf8_tail c 1; utf8_tail c 0]
  else if (c <? 0x110000)%N then
    Some [byte_of_N (N.lor 0xF0 (N.shiftr c 18));
          utf8_tail c 2; utf8_tail c 1; utf8_tail c 0]
  else None.

Fixpoint utf8_encode (s : str) : option bytes :=
  match s with
  | [] => Some []
  | c :: rest =>
      match utf8_encode_char c, utf8_encode rest with
      | Some b, Some bs => Some (b ++ bs)
      | _, _ => None
      end
  end.

Definition is_continuation (b : N) : bool := (N.land b 0xC0 =? 0x80)%N.

Definition payload (b : N) : N := N.land b 0x3F.

(** Strict decoding: truncated or stray bytes, overlong forms, surrogates and
    values beyond U+10FFFF are refused. *)
Fixpoint utf8_decode_values (bs : list N) : option str :=
  match bs with
  | [] => Some []
  | b0 :: r0 =>
      if (b0 <? 0x80)%N then option_map (cons b0) (utf8_decode_values r0)
      else if (N.land b0 0xE0 =? 0xC0)%N then
        match r0 with
        | b1 :: r1 =>
            let c := N.lor (N.shiftl (N.land b0 0x1F) 6) (payload b1) in
            if is_continuation b1 && (0x80 <=? c)%N
            then option_map (cons c) (utf8_decode_values r1)
            else None
        | _ => None
        end
      else if (N.land b0 0xF0 =? 0xE0)%N then
        match r0 with
        | b1 :: b2 :: r2 =>
            let c := N.lor (N.shiftl (N.land b0 0x0F) 12)
                       (N.lor (N.shiftl (payload b1) 6) (payload b2)) in
            if is_continuation b1 && is_continuation b2
               && (0x800 <=? c)%N && negb (is_surrogate c)
            then option_map (cons c) (utf8_decode_values r2)
            else None
        | _ => None
        end
      else if (N.land b0 0xF8 =? 0xF0)%N then
        match r0 with
        | b1 :: b2 :: b3 :: r3 =>
            let c := N.lor (N.shiftl (N.land b0 0x07) 18)
                       (N.lor (N.shiftl (payload b1) 12)
                          (N.lor (N.shiftl (payload b2) 6) (payload b3))) in
            if is_continuation b1 && is_continuation b2 && is_continuation b3
               && (0x10000 <=? c)%N && (c <? 0x110000)%N
            then option_map (cons c) (utf8_decode_values r3)
            else None
        | _ => None
        end
      else None
  end.

Definition utf8_decode (data : bytes) : option str :=
  utf8_decode_values (map Byte.to_N data).

(** ** The command line: [cli.py] *)

(** The exceptions the handlers of [cli.py] name. *)
Inductive exn : Type :=
| Base58_error (e : Base58Error)
| UnicodeEncodeError (obj : str)
| UnicodeDecodeError (obj : bytes).

(** What a run does that an observer can see: a [print] call with its text,
    and the calls into the codec. *)
Inductive event : Type :=
| Output (text : str)
| Call_encode (data : bytes)
| Call_decode (text : str).

(** How a piece of code ends: it returns, [sys.exit] was called, or an
    exception is on its way up. *)
Inductive outcome (A : Type) : Type :=
| Returned (a : A)
| Exited (code : Z)
| Raised (e : exn).
Arguments Returned {A} a.
Arguments Exited {A} code.
Arguments Raised {A} e.

Definition io (A : Type) : Type := (list event * outcome A)%type.

Definition ret (A : Type) (a : A) : io A := ([], Returned a).

Definition bind (A B : Type) (m : io A) (k : A -> io B) : io B :=
  match m with
  | (tr, Returned a) => let (tr', o) := k a in (tr ++ tr', o)
  | (tr, Exited code) => (tr, Exited code)
  | (tr, Raised e) => (tr, Raised e)
  end.

Notation "x <- m ;; k" := (bind m (fun x => k))
  (at level 61, m at next level, right associativity).
Notation "m ;; k" := (bind m (fun _ => k))
  (at level 61, right associativity).

Definition raise (A : Type) (e : exn) : io A := ([], Raised e).

(** [sys.exit(code)]. *)
Definition sys_exit (A : Type) (code : Z) : io A := ([], Exited code).
Arguments sys_exit {A} code.
Arguments raise {A} e.

(** [try: body  except ...: handler]; a handler answers [None] for the
    exceptions its clauses do not name. *)
Definition try_except (A : Type) (body : io A) (handler : exn -> option (io A)) : io A :=
  match body with
  | (tr, Raised e) =>
      match handler e with
      | Some h => let (tr', o) := h in (tr ++ tr', o)
      | None => (tr, Raised e)
      end
  | done => done
  end.

(** The codec as the command line sees it: [Base58.encode], [Base58.decode]
    and [str(e)] of a [Base58Error]. *)
Record Codec : Type := {
  codec_encode : bytes -> result Base58Error str;
  codec_decode : str -> result Base58Error bytes;
  error_text : Base58Error -> str
}.

(** What the interpreter and the console contribute: [str.lower], whether
    standard output can represent a text, and [str(e)] of the
    [UnicodeEncodeError] raised for a text. *)
Record Runtime : Type := {
  lower : str -> str;
  console_accepts : str -> bool;
  unicode_error_text : str -> str
}.

Definition _MAX_ENCODE_INPUT_LENGTH : nat := 2048.

(** The process exit status: 0 when [main] returns, the argument of
    [sys.exit], 1 for an uncaught exception. *)
Definition exit_status (A : Type) (o : outcome A) : Z :=
  match o with
  | Returned _ => 0%Z
  | Exited code => code
  | Raised _ => 1%Z
  end.

(** The texts handed to [print], in order. *)
Definition printed (tr : list event) : list str :=
  flat_map (fun e => match e with Output s => [s] | _ => [] end) tr.

Definition NEWLINE : char := 10%N.

(** Number of line breaks in a text. *)
Definition line_count (s : str) : nat := count_occ N.eq_dec s NEWLINE.

(** What standard output receives: every printed text and its line break. *)
Definition stdout (tr : list event) : str :=
  flat_map (fun s => s ++ [NEWLINE]) (printed tr).

Section CLI.
Variable codec : Codec.
Variable rt : Runtime.

(** [print(text)]; the console may refuse the text. *)
Definition print (text : str) : io unit :=
  if console_accepts rt text then ([Output text], Returned tt)
  else raise (UnicodeEncodeError text).

Definition Base58_encode (data : bytes) : io str :=
  ([Call_encode data],
   match codec_encode codec data with
   | Ok s => Returned s
   | Err e => Raised (Base58_error e)
   end).

Definition Base58_decode (text : str) : io bytes :=
  ([Call_decode text],
   match codec_decode codec text with
   | Ok b => Returned b
   | Err e => Raised (Base58_error e)
   end).

Definition str_encode (s : str) : io bytes :=
  match utf8_encode s with
  | Some b => ret b
  | None => raise (UnicodeEncodeError s)
  end.

Definition bytes_decode (b : bytes) : io str :=
  match utf8_decode b with
  | Some s => ret s
  | None => raise (UnicodeDecodeError b)
  end.

Definition _get_max_decode_input_length : io nat :=
  s <- Base58_encode (repeat Byte.x61 _MAX_ENCODE_INPUT_LENGTH) ;;
  ret (length s).

Definition print_usage : io unit :=
  print (lit "Usage:") ;;
  print (lit "  python -m splurge_base58 encode <INPUT>") ;;
  print (lit "  python -m splurge_base58 decode <INPUT>") ;;
  print [] ;;
  print (lit "Commands:") ;;
  print (lit "  encode    Encode binary data to base-58 string") ;;
  print (lit "  decode    Decode base-58 string to binary data") ;;
  print [] ;;
  print (lit "Constraints:") ;;
  print (lit "  encode: max input length is "
           ++ str_of_nat _MAX_ENCODE_INPUT_LENGTH ++ lit " bytes") ;;
  n <- _get_max_decode_input_length ;;
  print (lit "  decode: max input length is " ++ str_of_nat n ++ lit " characters").

Definition length_error (observed limit : nat) : str :=
  lit "Error: Input length " ++ str_of_nat observed
    ++ lit " exceeds maximum of " ++ str_of_nat limit.

Definition encode_command (input_data : str) : io unit :=
  (if (_MAX_ENCODE_INPUT_LENGTH <? length input_data)%nat
   then print (length_error (length input_data) _MAX_ENCODE_INPUT_LENGTH) ;;
        sys_exit 1
   else ret tt) ;;
  try_except
    (data <- str_encode input_data ;;
     encoded <- Base58_encode data ;;
     print encoded)
    (fun e =>
       match e with
       | UnicodeEncodeError obj =>
           Some (print (lit "Error: Cannot encode input as UTF-8: "
                          ++ unicode_error_text rt obj) ;;
                 sys_exit 1)
       | Base58_error e' =>
           Some (print (lit "Error: " ++ error_text codec e') ;; sys_exit 1)
       | UnicodeDecodeError _ => None
       end).

Definition decode_command (input_data : str) : io unit :=
  max_decode_length <- _get_max_decode_input_length ;;
  (if (max_decode_length <? length input_data)%nat
   then print (length_error (length input_data) max_decode_length) ;;
        sys_exit 1
   else ret tt) ;;
  try_except
    (decoded <- Base58_decode input_data ;;
     result <- bytes_decode decoded ;;
     print result)
    (fun e =>
       match e with
       | Base58_error e' =>
           Some (print (lit "Error: " ++ error_text codec e') ;; sys_exit 1)
       | UnicodeDecodeError _ =>
           Some (print (lit "Error: Decoded data is not valid UTF-8") ;;
                 sys_exit 1)
       | UnicodeEncodeError _ =>
           Some (print (lit "Error: Cannot display decoded data in current console encoding") ;;
                 sys_exit 1)
       end).

Definition main (argv : list str) : io unit :=
  (if (length argv <? 3)%nat then print_usage ;; sys_exit 1 else ret tt) ;;
  let command := lower rt (nth 1 argv []) in
  let input_data := nth 2 argv [] in
  if str_eqb command (lit "encode") then encode_command input_data
  else if str_eqb command (lit "decode") then decode_command input_data
  else print (lit "Error: Unknown command '" ++ command ++ lit "'") ;;
       print_usage ;;
       sys_exit 1.

End CLI.

(** ** Instances for the examples *)

(** Modelled from the spec: [str(e)] of a [Base58Error] of the absent
    [base58.py].  The spec fixes what is reported (the observed length and the
    limit; the character and its position), not the wording; the character is
    rendered by its code point here, and the wording for empty input is this
    model's. *)
Definition spec_error_text (e : Base58Error) : str :=
  match e with
  | LengthExceeded observed limit =>
      lit "Input length " ++ str_of_nat observed
        ++ lit " exceeds maximum of " ++ str_of_nat limit
  | InvalidCharacter c position =>
      lit "Invalid character (code point " ++ str_of_nat (N.to_nat c)
        ++ lit ") at position " ++ str_of_nat position
  | EmptyInput => lit "Input is empty"
  end.

Definition spec_codec : Codec :=
  {| codec_encode := Base58.encode;
     codec_decode := Base58.decode;
     error_text := spec_error_text |}.

(** [str.lower] on ASCII text. *)
Definition ascii_lower (s : str) : str :=
  map (fun c => if ((65 <=? c) && (c <=? 90))%N then (c + 32)%N else c) s.

(** A UTF-8 console (it accepts every text) under an interpreter given ASCII
    commands. *)
Definition utf8_console : Runtime :=
  {| lower := ascii_lower;
     console_accepts := fun _ => true;
     unicode_error_text := fun _ => lit "surrogates not allowed" |}.

(** The eleven texts of [print_usage], given the decode bound it computes. *)
Definition usage_lines (max_decode : nat) : list str :=
  [ lit "Usage:";
    lit "  python -m splurge_base58 encode <INPUT>";
    lit "  python -m splurge_base58 decode <INPUT>";
    [];
    lit "Commands:";
    lit "  encode    Encode binary data to base-58 string";
    lit "  decode    Decode base-58 string to binary data";
    [];
    lit "Constraints:";
    lit "  encode: max input length is "
      ++ str_of_nat _MAX_ENCODE_INPUT_LENGTH ++ lit " bytes";
    lit "  decode: max input length is " ++ str_of_nat max_decode ++ lit " characters" ].

(** The user-visible behaviour as the specification words it: whatever the
    invocation, standard output receives exactly one line. *)
Definition one_line_per_run (codec : Codec) (rt : Runtime) : Prop :=
  forall argv : list str,
    line_count (stdout (fst (main codec rt argv))) = 1.

(** A run that ends with status 1 after printing one error line. *)
Definition fails_with_one_line (r : io unit) : Prop :=
  exists msg, printed (fst r) = [lit "Error: " ++ msg]
              /\ line_count msg = 0 /\ snd r = Exited 1%Z.

(** A run that returns after a single [print] of its result. *)
Definition succeeds_printing (r : io unit) (result : str) : Prop :=
  printed (fst r) = [result] /\ snd r = Returned tt.

Unset Implicit Arguments.

(** ** Auxiliary notions for the proofs *)

(** The value of a digit list given least significant digit first. *)
Definition value_le (base : N) (ds : list N) : N :=
  fold_right (fun d v => (d + v * base)%N) 0%N ds.

(** Every [sys.exit] a piece of code reaches carries status 1. *)
Definition exits_with_1 (A : Type) (m : io A) : Prop :=
  forall code, snd m = Exited code -> code = 1%Z.

(** The calls of [Base58.decode] a piece of code makes all have the argument
    [arg]. *)
Definition decodes_only (A : Type) (arg : str) (m : io A) : Prop :=
  forall text, In (Call_decode text) (fst m) -> text = arg.

(** A piece of code that never calls [Base58.decode]. *)
Definition never_decodes (A : Type) (m : io A) : Prop :=
  forall text, ~ In (Call_decode text) (fst m).

(** * Positional numerals: the conversions are inverse to each other *)

Section RadixFacts.
Open Scope N_scope.
Variable base : N.
Hypothesis base_ge_2 : 2 <= base.

Local Ltac pow_zero H := cbn [N.of_nat] in H; rewrite N.pow_0_r in H.

Lemma value_le_cons d ds :
  value_le base (d :: ds) = d + value_le base ds * base.
Proof. reflexivity. Qed.

Lemma divmod_digits_zero fuel : divmod_digits base fuel 0 = [].
Proof. destruct fuel; reflexivity. Qed.

Lemma div_base_lt fuel n :
  n < 2 ^ N.of_nat (S fuel) -> n / base < 2 ^ N.of_nat fuel.
Proof.
  intros Hn. rewrite Nat2N.inj_succ, N.pow_succ_r' in Hn.
  apply N.Div0.div_lt_upper_bound.
  assert (2 * 2 ^ N.of_nat fuel <= base * 2 ^ N.of_nat fuel)
    by (apply N.mul_le_mono_r; exact base_ge_2).
  lia.
Qed.

Lemma divmod_digits_value fuel :
  forall n, n < 2 ^ N.of_nat fuel ->
            value_le base (divmod_digits base fuel n) = n.
Proof.
  induction fuel as [|fuel IH]; intros n Hn.
  - pow_zero Hn. cbn [divmod_digits value_le fold_right]. lia.
  - cbn [divmod_digits]. destruct (N.eqb_spec n 0) as [->|Hnz]; [reflexivity|].
    rewrite value_le_cons.
    rewrite IH by (apply div_base_lt; exact Hn).
    rewrite (N.div_mod' n base) at 3. lia.
Qed.

Lemma divmod_digits_bounded fuel :
  forall n, Forall (fun d => d < base) (divmod_digits base fuel n).
Proof.
  induction fuel as [|fuel IH]; intros n; cbn [divmod_digits].
  - constructor.
  - destruct (n =? 0); constructor; [apply N.mod_lt; lia | apply IH].
Qed.

(** The most significant digit produced is never zero. *)
Lemma divmod_digits_last fuel :
  forall n, n < 2 ^ N.of_nat fuel -> last (divmod_digits base fuel n) 1 <> 0.
Proof.
  induction fuel as [|fuel IH]; intros n Hn.
  - simpl. lia.
  - cbn [divmod_digits]. destruct (N.eqb_spec n 0) as [->|Hnz]; [simpl; lia|].
    pose proof (div_base_lt _ _ Hn) as Hq.
    specialize (IH _ Hq).
    destruct (N.eq_dec (n / base) 0) as [Hz|Hz].
    + rewrite Hz, divmod_digits_zero. cbn [last].
      apply N.div_small_iff in Hz; [|lia].
      rewrite N.mod_small by exact Hz. exact Hnz.
    + destruct fuel as [|fuel'];
        [pow_zero Hq; apply N.lt_1_r in Hq; contradiction|].
      cbn [divmod_digits] in *.
      destruct (N.eqb_spec (n / base) 0) as [E|_]; [contradiction|].
      exact IH.
Qed.

(** A digit list without a zero in front is the one its value produces. *)
Lemma divmod_digits_unique :
  forall ds, Forall (fun d => d < base) ds -> last ds 1 <> 0 ->
  forall fuel, value_le base ds < 2 ^ N.of_nat fuel ->
               divmod_digits base fuel (value_le base ds) = ds.
Proof.
  induction ds as [|d ds IH]; intros Hb Hl fuel Hv.
  - apply divmod_digits_zero.
  - inversion Hb as [|? ? Hd Hb']; subst.
    rewrite value_le_cons in *.
    assert (Hl' : last ds 1 <> 0).
    { destruct ds; [simpl; lia | exact Hl]. }
    assert (Hnz : d + value_le base ds * base <> 0).
    { destruct ds as [|d' ds']; [cbn [last] in Hl; lia|].
      intros Hz.
      assert (Hz' : value_le base (d' :: ds') = 0) by nia.
      specialize (IH Hb' Hl' 0%nat). rewrite Hz' in IH.
      discriminate IH. reflexivity. }
    destruct fuel as [|fuel]; [pow_zero Hv; lia|].
    cbn [divmod_digits].
    destruct (N.eqb_spec (d + value_le base ds * base) 0) as [E|_];
      [contradiction|].
    rewrite N.Div0.mod_add, N.mod_small by exact Hd.
    rewrite N.div_add, N.div_small by (try exact Hd; lia).
    cbn [N.add]. f_equal. apply IH; try assumption.
    pose proof (div_base_lt _ _ Hv) as Hq.
    rewrite N.div_add, N.div_small in Hq by (try exact Hd; lia).
    exact Hq.
Qed.

Lemma from_digits_snoc ds d :
  from_digits base (ds ++ [d]) = from_digits base ds * base + d.
Proof. unfold from_digits. rewrite fold_left_app. reflexivity. Qed.

Lemma from_digits_rev ds : from_digits base (rev ds) = value_le base ds.
Proof.
  induction ds as [|d ds IH]; [reflexivity|].
  cbn [rev]. rewrite from_digits_snoc, IH, value_le_cons. lia.
Qed.

Lemma size_fuel n : n < 2 ^ N.of_nat (N.to_nat (N.size n)).
Proof. rewrite N2Nat.id. apply N.size_gt. Qed.

(** Enough divisions are made: the digits of [n] denote [n]. *)
Lemma from_to_digits n : from_digits base (to_digits base n) = n.
Proof.
  unfold to_digits. rewrite from_digits_rev.
  apply divmod_digits_value, size_fuel.
Qed.

Lemma to_digits_bounded n : Forall (fun d => d < base) (to_digits base n).
Proof.
  unfold to_digits. apply Forall_rev, divmod_digits_bounded.
Qed.

Lemma last_rev_hd (ds : list N) x : last (rev ds) x = hd x ds.
Proof.
  destruct ds as [|d ds]; [reflexivity|]. cbn [rev hd]. apply last_last.
Qed.

Lemma to_digits_hd n : hd 1 (to_digits base n) <> 0.
Proof.
  unfold to_digits. rewrite <- last_rev_hd, rev_involutive.
  apply divmod_digits_last, size_fuel.
Qed.

Lemma to_from_digits ds :
  Forall (fun d => d < base) ds -> hd 1 ds <> 0 ->
  to_digits base (from_digits base ds) = ds.
Proof.
  intros Hb Hh. unfold to_digits.
  assert (Hv : from_digits base ds = value_le base (rev ds))
    by (rewrite <- from_digits_rev, rev_involutive; reflexivity).
  rewrite Hv, divmod_digits_unique.
  - apply rev_involutive.
  - apply Forall_rev, Hb.
  - rewrite last_rev_hd. exact Hh.
  - apply size_fuel.
Qed.

(** Leading zero digits do not change the value. *)
Lemma from_digits_zeros z ds :
  from_digits base (repeat 0 z ++ ds) = from_digits base ds.
Proof.
  unfold from_digits. rewrite fold_left_app. f_equal.
  induction z as [|z IH]; [reflexivity|]. exact IH.
Qed.

Lemma from_digits_upper ds :
  Forall (fun d => d < base) ds ->
  from_digits base ds < base ^ N.of_nat (length ds).
Proof.
  induction ds as [|d ds IH] using rev_ind; intros Hb.
  - cbn [length N.of_nat]. rewrite N.pow_0_r. reflexivity.
  - apply Forall_app in Hb as [Hb Hd]. inversion Hd; subst.
    rewrite from_digits_snoc, length_app, Nat.add_1_r, Nat2N.inj_succ,
      N.pow_succ_r'.
    specialize (IH Hb). nia.
Qed.

Lemma divmod_digits_length fuel :
  forall (k : nat) n, n < base ^ N.of_nat k ->
                      (length (divmod_digits base fuel n) <= k)%nat.
Proof.
  induction fuel as [|fuel IH]; intros k n Hn; cbn [divmod_digits].
  - simpl. lia.
  - destruct (N.eqb_spec n 0) as [->|Hnz]; [simpl; lia|].
    destruct k as [|k]; [pow_zero Hn; lia|].
    cbn [length]. apply le_n_S, IH.
    rewrite Nat2N.inj_succ, N.pow_succ_r' in Hn.
    apply N.Div0.div_lt_upper_bound. exact Hn.
Qed.

Lemma to_digits_length (k : nat) n :
  n < base ^ N.of_nat k -> (length (to_digits base n) <= k)%nat.
Proof.
  intros Hn. unfold to_digits. rewrite length_rev.
  apply divmod_digits_length, Hn.
Qed.

End RadixFacts.

(** * Runs of a leading element *)

Section Leading.
Variable A : Type.
Variable eqb : A -> A -> bool.
Hypothesis eqb_eq : forall a b, eqb a b = true <-> a = b.

Lemma count_leading_repeat x z l :
  hd_error l <> Some x -> count_leading eqb x (repeat x z ++ l) = z.
Proof.
  intros Hl. induction z as [|z IH].
  - destruct l as [|a l]; [reflexivity|]. cbn [repeat app count_leading].
    destruct (eqb a x) eqn:E; [|reflexivity].
    apply eqb_eq in E. subst a. contradiction Hl. reflexivity.
  - cbn [repeat app count_leading].
    rewrite (proj2 (eqb_eq x x) eq_refl), IH. reflexivity.
Qed.


Lemma count_leading_split x l :
  l = repeat x (count_leading eqb x l) ++ skipn (count_leading eqb x l) l.
Proof.
  induction l as [|a l IH]; [reflexivity|]. cbn [count_leading].
  destruct (eqb a x) eqn:E; [|reflexivity].
  apply eqb_eq in E. subst a. cbn [repeat app skipn]. f_equal. exact IH.
Qed.

Lemma count_leading_rest x l :
  hd_error (skipn (count_leading eqb x l) l) <> Some x.
Proof.
  induction l as [|a l IH]; [discriminate|]. cbn [count_leading].
  destruct (eqb a x) eqn:E; [exact IH|].
  cbn [skipn hd_error]. intros [= ->].
  rewrite (proj2 (eqb_eq x x) eq_refl) in E. discriminate.
Qed.

Lemma count_leading_le x l : count_leading eqb x l <= length l.
Proof.
  induction l as [|a l IH]; [apply le_n|]. cbn [count_leading length].
  destruct (eqb a x); lia.
Qed.

Lemma skipn_repeat_app (x : A) z l : skipn z (repeat x z ++ l) = l.
Proof. induction z as [|z IH]; [reflexivity | exact IH]. Qed.
End Leading.

Lemma byte_eqb_eq a b : Byte.eqb a b = true <-> a = b.
Proof. split; [apply Byte.byte_dec_bl | apply Byte.byte_dec_lb]. Qed.

(** * The alphabet *)

Lemma BASE_eq : Base58.BASE = 58%N.
Proof. reflexivity. Qed.

Lemma index_from_None c l : forall i, Base58.index_from i c l = None <-> ~ In c l.
Proof.
  induction l as [|x l IH]; intros i; cbn [Base58.index_from In].
  - tauto.
  - destruct (N.eqb_spec x c) as [->|Hne].
    + split; [discriminate | intros H; contradiction H; left; reflexivity].
    + rewrite IH. tauto.
Qed.

Lemma char_value_None c : Base58.char_value c = None <-> ~ In c Base58.ALPHABET.
Proof. apply index_from_None. Qed.

Lemma alphabet_inverse d :
  (d < 58)%N -> Base58.char_value (Base58.value_char d) = Some d.
Proof.
  intros Hd.
  assert (H : forallb
                (fun k => match Base58.char_value (Base58.value_char (N.of_nat k)) with
                          | Some v => (v =? N.of_nat k)%N
                          | None => false
                          end) (seq 0 58) = true) by reflexivity.
  rewrite forallb_forall in H. specialize (H (N.to_nat d)).
  rewrite N2Nat.id in H.
  destruct (Base58.char_value (Base58.value_char d)) as [v|].
  - f_equal. apply N.eqb_eq, H, in_seq. lia.
  - discriminate H. apply in_seq. lia.
Qed.

Lemma digit_value_char d : (d < 58)%N -> Base58.digit_value (Base58.value_char d) = d.
Proof.
  intros Hd. unfold Base58.digit_value. rewrite alphabet_inverse by exact Hd.
  reflexivity.
Qed.

Lemma value_char_zero d :
  (d < 58)%N -> Base58.value_char d = Base58.ZERO_CHAR -> d = 0%N.
Proof.
  intros Hd E. pose proof (alphabet_inverse _ Hd) as H. rewrite E in H.
  change Base58.ZERO_CHAR with (Base58.value_char 0) in H.
  rewrite alphabet_inverse in H by reflexivity. congruence.
Qed.

Lemma value_char_in d : (d < 58)%N -> In (Base58.value_char d) Base58.ALPHABET.
Proof.
  intros Hd. destruct (in_dec N.eq_dec (Base58.value_char d) Base58.ALPHABET) as [H|H];
    [exact H|].
  apply char_value_None in H. rewrite alphabet_inverse in H by exact Hd. discriminate.
Qed.

Lemma ZERO_CHAR_in : In Base58.ZERO_CHAR Base58.ALPHABET.
Proof. apply (value_char_in 0). reflexivity. Qed.

(** * Bytes and integers *)

Lemma byte_of_to_N b : byte_of_N (Byte.to_N b) = b.
Proof.
  unfold byte_of_N. pose proof (Byte.to_N_bounded b).
  rewrite N.mod_small by lia. rewrite Byte.of_to_N. reflexivity.
Qed.

Lemma to_N_zero b : Byte.to_N b = 0%N -> b = Byte.x00.
Proof.
  intros H. pose proof (Byte.of_to_N b) as E. rewrite H in E.
  cbn in E. congruence.
Qed.

Lemma int_from_bytes_zeros z rest :
  Base58.int_from_bytes (repeat Byte.x00 z ++ rest) = Base58.int_from_bytes rest.
Proof.
  unfold Base58.int_from_bytes. rewrite map_app, map_repeat.
  apply from_digits_zeros.
Qed.

Lemma int_to_from_bytes rest :
  hd_error rest <> Some Byte.x00 ->
  Base58.int_to_bytes (Base58.int_from_bytes rest) = rest.
Proof.
  intros Hh. unfold Base58.int_to_bytes, Base58.int_from_bytes.
  rewrite to_from_digits.
  - rewrite map_map. rewrite <- (map_id rest) at 2.
    apply map_ext. exact byte_of_to_N.
  - lia.
  - apply Forall_map, Forall_forall. intros b _.
    pose proof (Byte.to_N_bounded b). lia.
  - destruct rest as [|b rest]; cbn [map hd]; [lia|].
    intros Hz. apply to_N_zero in Hz. subst b. apply Hh. reflexivity.
Qed.

Lemma int_from_bytes_upper data :
  (Base58.int_from_bytes data < 256 ^ N.of_nat (length data))%N.
Proof.
  unfold Base58.int_from_bytes.
  rewrite <- (length_map Byte.to_N data). apply from_digits_upper; [lia|].
  apply Forall_map, Forall_forall. intros b _.
  pose proof (Byte.to_N_bounded b). lia.
Qed.

(** * The codec: decoding undoes encoding *)

Lemma to_digits_58_chars n :
  hd_error (map Base58.value_char (to_digits Base58.BASE n)) <> Some Base58.ZERO_CHAR.
Proof.
  rewrite BASE_eq.
  pose proof (to_digits_bounded 58 ltac:(lia) n) as Hb.
  pose proof (to_digits_hd 58 ltac:(lia) n) as Hh.
  destruct (to_digits 58 n) as [|d ds]; [discriminate|].
  cbn [map hd_error hd] in *. inversion Hb; subst.
  intros [= E]. apply value_char_zero in E; [contradiction | assumption].
Qed.

Lemma decode_encode_digits data :
  Base58.decode_digits (Base58.encode_digits data) = data.
Proof.
  unfold Base58.decode_digits, Base58.encode_digits.
  pose proof (count_leading_split _ Byte.eqb byte_eqb_eq Byte.x00 data) as Hsplit.
  pose proof (count_leading_rest _ Byte.eqb byte_eqb_eq Byte.x00 data) as Hrest.
  remember (count_leading Byte.eqb Byte.x00 data) as z eqn:Hz.
  remember (skipn z data) as rest eqn:Hr.
  rewrite (count_leading_repeat _ N.eqb N.eqb_eq) by apply to_digits_58_chars.
  rewrite skipn_repeat_app, map_map.
  rewrite (map_ext_in _ (fun d => d)), map_id.
  - rewrite from_to_digits by (rewrite BASE_eq; lia).
    rewrite Hsplit, int_from_bytes_zeros. f_equal.
    apply int_to_from_bytes, Hrest.
  - intros d Hd. apply digit_value_char.
    pose proof (to_digits_bounded 58 ltac:(lia) (Base58.int_from_bytes data)) as Hb.
    rewrite Forall_forall in Hb. apply Hb. rewrite BASE_eq in Hd. exact Hd.
Qed.

Lemma encode_digits_alphabet data :
  Forall (fun c => In c Base58.ALPHABET) (Base58.encode_digits data).
Proof.
  unfold Base58.encode_digits. apply Forall_app. split.
  - apply Forall_forall. intros c Hc. apply repeat_spec in Hc. subst c.
    apply ZERO_CHAR_in.
  - apply Forall_map. rewrite BASE_eq.
    eapply Forall_impl; [|apply to_digits_bounded; lia].
    intros d Hd. apply value_char_in, Hd.
Qed.

Lemma first_invalid_None text :
  forall pos, Base58.first_invalid pos text = None <->
              Forall (fun c => In c Base58.ALPHABET) text.
Proof.
  induction text as [|c text IH]; intros pos; cbn [Base58.first_invalid].
  - split; [constructor | reflexivity].
  - destruct (Base58.char_value c) as [v|] eqn:E.
    + rewrite IH. split.
      * intros H. constructor; [|exact H].
        destruct (in_dec N.eq_dec c Base58.ALPHABET) as [Hin|Hin]; [exact Hin|].
        apply char_value_None in Hin. congruence.
      * intros H. inversion H; assumption.
    + split; [discriminate|]. intros H. inversion H as [|? ? Hin _]; subst.
      apply char_value_None in E. contradiction.
Qed.

(** [first_invalid] reports the first character outside the alphabet and the
    index it stands at. *)
Lemma first_invalid_Some text :
  forall pos c q,
    Base58.first_invalid pos text = Some (c, q) <->
    exists i, q = pos + i /\ nth_error text i = Some c
              /\ ~ In c Base58.ALPHABET
              /\ Forall (fun c' => In c' Base58.ALPHABET) (firstn i text).
Proof.
  induction text as [|x text IH]; intros pos c q; cbn [Base58.first_invalid].
  - split; [discriminate|]. intros (i & _ & Hn & _). destruct i; discriminate.
  - destruct (Base58.char_value x) as [v|] eqn:E.
    + rewrite IH. split.
      * intros (i & -> & Hn & Hc & Hf). exists (S i). repeat split; try assumption.
        { lia. }
        cbn [firstn]. constructor; [|exact Hf].
        destruct (in_dec N.eq_dec x Base58.ALPHABET) as [Hin|Hin]; [exact Hin|].
        apply char_value_None in Hin. congruence.
      * intros (i & -> & Hn & Hc & Hf). destruct i as [|i].
        { cbn in Hn. injection Hn as ->. apply char_value_None in Hc. congruence. }
        exists i. repeat split; try assumption; [lia|].
        cbn [firstn] in Hf. inversion Hf; assumption.
    + apply char_value_None in E. split.
      * intros [= -> ->]. exists 0. repeat split; [lia | exact E | constructor].
      * intros (i & -> & Hn & Hc & Hf). destruct i as [|i].
        { cbn in Hn. injection Hn as ->. f_equal. f_equal. lia. }
        cbn [firstn] in Hf. inversion Hf; contradiction.
Qed.

(** Powers of 58 against powers of 2, in blocks small enough to evaluate. *)
Lemma pow58_block_lower : (2 ^ 3011 <= 58 ^ 514)%N /\ (2 ^ 1329 <= 58 ^ 227)%N.
Proof. split; apply N.leb_le; vm_compute; reflexivity. Qed.

Lemma pow58_block_upper : (58 ^ 169 <= 2 ^ 990)%N /\ (58 ^ 92 <= 2 ^ 539)%N.
Proof. split; apply N.leb_le; vm_compute; reflexivity. Qed.

Lemma pow_256_58 : (256 ^ 2048 <= 58 ^ 2797)%N.
Proof.
  destruct pow58_block_lower as [H1 H2].
  change 256%N with (2 ^ 8)%N. rewrite <- N.pow_mul_r.
  change (8 * 2048)%N with (3011 * 5 + 1329)%N.
  change 2797%N with (514 * 5 + 227)%N.
  rewrite !N.pow_add_r, !N.pow_mul_r.
  apply N.mul_le_mono; [apply N.pow_le_mono_l; exact H1 | exact H2].
Qed.

Lemma pow_58_2796 : (58 ^ 2796 <= 97 * 256 ^ 2047)%N.
Proof.
  destruct pow58_block_upper as [H1 H2].
  apply N.le_trans with (2 ^ (990 * 16 + 539))%N.
  - change 2796%N with (169 * 16 + 92)%N.
    rewrite !N.pow_add_r, !N.pow_mul_r.
    apply N.mul_le_mono; [apply N.pow_le_mono_l; exact H1 | exact H2].
  - change 256%N with (2 ^ 8)%N. rewrite <- N.pow_mul_r.
    change (990 * 16 + 539)%N with (3 + 8 * 2047)%N.
    rewrite N.pow_add_r. apply N.mul_le_mono_r.
    change (2 ^ 3)%N with 8%N. lia.
Qed.

(** Leading zero bytes cost one character each, the others less than
    [log 256 / log 58] on average: no encoding of at most 2048 bytes is longer
    than 2797 characters. *)
Lemma pow_bound (z k : nat) :
  z + k <= 2048 ->
  (256 ^ N.of_nat k <= 58 ^ N.of_nat (2797 - z))%N.
Proof.
  intros H.
  apply N.le_trans with (256 ^ N.of_nat (2048 - z))%N.
  { apply N.pow_le_mono_r; lia. }
  apply (N.mul_le_mono_pos_r _ _ (58 ^ N.of_nat z)%N).
  { apply N.neq_0_lt_0, N.pow_nonzero. discriminate. }
  apply N.le_trans with (256 ^ N.of_nat (2048 - z) * 256 ^ N.of_nat z)%N.
  { apply N.mul_le_mono_l, N.pow_le_mono_l. lia. }
  rewrite <- !N.pow_add_r.
  replace (N.of_nat (2048 - z) + N.of_nat z)%N with 2048%N by lia.
  replace (N.of_nat (2797 - z) + N.of_nat z)%N with 2797%N by lia.
  exact pow_256_58.
Qed.

Lemma encode_digits_length data :
  length data <= 2048 -> length (Base58.encode_digits data) <= 2797.
Proof.
  intros Hlen. unfold Base58.encode_digits.
  set (z := count_leading Byte.eqb Byte.x00 data).
  rewrite length_app, repeat_length, length_map.
  assert (Hz : z <= length data) by apply count_leading_le.
  assert (Hd : length (to_digits Base58.BASE (Base58.int_from_bytes data)) <= 2797 - z).
  { rewrite BASE_eq. apply to_digits_length; [lia|].
    rewrite (count_leading_split _ Byte.eqb byte_eqb_eq Byte.x00 data).
    fold z. rewrite int_from_bytes_zeros.
    eapply N.lt_le_trans; [apply int_from_bytes_upper|].
    apply pow_bound. rewrite length_skipn. lia. }
  lia.
Qed.

Lemma from_digits_cons base d ds :
  from_digits base (d :: ds)
  = (d * base ^ N.of_nat (length ds) + from_digits base ds)%N.
Proof.
  induction ds as [|x ds IH] using rev_ind.
  - unfold from_digits. cbn [fold_left length N.of_nat]. rewrite N.pow_0_r. lia.
  - rewrite app_comm_cons, !from_digits_snoc, IH, length_app, Nat.add_1_r,
      Nat2N.inj_succ, N.pow_succ_r'. lia.
Qed.

(** The digits of [n] are as many as its magnitude requires. *)
Lemma to_digits_length_lower base (k : nat) n :
  (2 <= base)%N -> (base ^ N.of_nat k <= n)%N -> k < length (to_digits base n).
Proof.
  intros Hbase Hn.
  pose proof (from_digits_upper base Hbase _ (to_digits_bounded base Hbase n)) as Hu.
  rewrite from_to_digits in Hu by exact Hbase.
  destruct (Nat.lt_ge_cases k (length (to_digits base n))) as [Hlt|Hge]; [exact Hlt|].
  assert (base ^ N.of_nat (length (to_digits base n)) <= base ^ N.of_nat k)%N
    by (apply N.pow_le_mono_r; lia).
  lia.
Qed.

(** The bound on decode input is 2797 characters. *)
Lemma MAX_DECODE_LENGTH_eq : Base58.MAX_DECODE_LENGTH = 2797.
Proof.
  apply Nat.le_antisymm.
  - apply encode_digits_length. unfold Base58.MAX_ENCODE_LENGTH.
    rewrite repeat_length. apply le_n.
  - unfold Base58.MAX_DECODE_LENGTH, Base58.encode_digits, Base58.MAX_ENCODE_LENGTH.
    change (repeat Byte.x61 2048) with (Byte.x61 :: repeat Byte.x61 2047).
    change (count_leading Byte.eqb Byte.x00 (Byte.x61 :: repeat Byte.x61 2047))
      with 0.
    rewrite length_app, repeat_length, length_map, BASE_eq. cbn [Nat.add].
    apply (to_digits_length_lower 58 2796); [lia|].
    unfold Base58.int_from_bytes. cbn [map]. rewrite from_digits_cons.
    rewrite length_map, repeat_length.
    change (Byte.to_N Byte.x61) with 97%N.
    change (N.of_nat 2047) with 2047%N. change (N.of_nat 2796) with 2796%N.
    eapply N.le_trans; [exact pow_58_2796 | apply N.le_add_r].
Qed.

Lemma repeat_nonempty (A : Type) (x : A) n : 0 < n -> repeat x n <> [].
Proof. destruct n; [lia | discriminate]. Qed.

Lemma encode_nonempty data :
  data <> [] ->
  Base58.encode data
  = if (Base58.MAX_ENCODE_LENGTH <? length data)%nat
    then Err (LengthExceeded (length data) Base58.MAX_ENCODE_LENGTH)
    else Ok (Base58.encode_digits data).
Proof. destruct data; [intros H; contradiction H|]; reflexivity. Qed.

Lemma decode_nonempty text :
  text <> [] ->
  Base58.decode text
  = if (Base58.MAX_DECODE_LENGTH <? length text)%nat
    then Err (LengthExceeded (length text) Base58.MAX_DECODE_LENGTH)
    else match Base58.first_invalid 0 text with
         | Some (c, pos) => Err (InvalidCharacter c pos)
         | None => Ok (Base58.decode_digits text)
         end.
Proof. destruct text; [intros H; contradiction H|]; reflexivity. Qed.

Lemma spec_max_encoding :
  Base58.encode (repeat Byte.x61 _MAX_ENCODE_INPUT_LENGTH)
  = Ok (Base58.encode_digits (repeat Byte.x61 _MAX_ENCODE_INPUT_LENGTH))
  /\ length (Base58.encode_digits (repeat Byte.x61 _MAX_ENCODE_INPUT_LENGTH)) = 2797.
Proof.
  split.
  - rewrite encode_nonempty
      by (apply repeat_nonempty; unfold _MAX_ENCODE_INPUT_LENGTH; lia).
    rewrite repeat_length. reflexivity.
  - rewrite <- MAX_DECODE_LENGTH_eq.
    unfold Base58.MAX_DECODE_LENGTH, Base58.MAX_ENCODE_LENGTH,
      _MAX_ENCODE_INPUT_LENGTH.
    reflexivity.
Qed.

Global Opaque Base58.MAX_DECODE_LENGTH.

Lemma ltb_false_le a b : b <= a -> (a <? b) = false.
Proof. intros H. apply Nat.ltb_ge. exact H. Qed.

(** Non-empty data has a non-empty encoding: a leading zero byte gives a
    zero-character, any other leading byte a non-zero number. *)
Lemma encode_digits_nonempty b : b <> [] -> Base58.encode_digits b <> [].
Proof.
  destruct b as [|x b]; [intros H; congruence|]. intros _.
  unfold Base58.encode_digits.
  destruct (Byte.eqb x Byte.x00) eqn:E.
  - cbn [count_leading]. rewrite E. discriminate.
  - cbn [count_leading]. rewrite E. cbn [repeat app].
    assert (Hlen : 0 < length (to_digits Base58.BASE
                                 (Base58.int_from_bytes (x :: b)))).
    { rewrite BASE_eq. apply to_digits_length_lower; [lia|].
      cbn [N.of_nat]. rewrite N.pow_0_r.
      unfold Base58.int_from_bytes. cbn [map]. rewrite from_digits_cons.
      assert (Hx : Byte.to_N x <> 0%N).
      { intros Hz. apply to_N_zero in Hz. subst x. discriminate E. }
      assert (Hp : (256 ^ N.of_nat (length (map Byte.to_N b)) <> 0)%N)
        by (apply N.pow_nonzero; discriminate).
      nia. }
    destruct (to_digits Base58.BASE (Base58.int_from_bytes (x :: b)));
      [cbn [length] in Hlen; lia | discriminate].
Qed.

Lemma spec_round_trip (b : bytes) :
  b <> [] -> length b <= Base58.MAX_ENCODE_LENGTH ->
  Base58.encode b = Ok (Base58.encode_digits b)
  /\ Base58.decode (Base58.encode_digits b) = Ok b
  /\ length (Base58.encode_digits b) <= 2797.
Proof.
  intros Hne H. pose proof (encode_digits_length b H) as Hl.
  split; [|split; [|exact Hl]].
  - rewrite encode_nonempty by exact Hne.
    rewrite ltb_false_le by exact H. reflexivity.
  - rewrite decode_nonempty by (apply encode_digits_nonempty, Hne).
    rewrite MAX_DECODE_LENGTH_eq, ltb_false_le by exact Hl.
    rewrite (proj2 (first_invalid_None _ 0)) by apply encode_digits_alphabet.
    rewrite decode_encode_digits. reflexivity.
Qed.

(** C1, as the codec has it.  Round trip: for every non-empty byte sequence
    [b] of at most MAX_ENCODE_LENGTH (2048) bytes, [encode b] succeeds and
    [decode] of its result is [b]. *)
Theorem decode_encode_roundtrip (b : bytes) :
  b <> [] ->
  length b <= Base58.MAX_ENCODE_LENGTH ->
  exists s, Base58.encode b = Ok s /\ Base58.decode s = Ok b.
Proof.
  intros Hne H. exists (Base58.encode_digits b).
  destruct (spec_round_trip b Hne H) as (He & Hd & _).
  split; [exact He | exact Hd].
Qed.

Lemma decode_encode_roundtrip_witness :
  exists s, Base58.encode [Byte.x00; Byte.x48; Byte.x69] = Ok s
            /\ Base58.decode s = Ok [Byte.x00; Byte.x48; Byte.x69].
Proof.
  apply (decode_encode_roundtrip [Byte.x00; Byte.x48; Byte.x69]).
  - discriminate.
  - unfold Base58.MAX_ENCODE_LENGTH. simpl. lia.
Defined.

(** C1 as stated fails at the empty byte sequence, which is within its range:
    [encode] refuses it, so there is nothing for [decode] to undo. *)
Lemma roundtrip_empty_counterexample :
  Base58.encode [] = Err EmptyInput
  /\ ~ (exists s, Base58.encode [] = Ok s /\ Base58.decode s = Ok []).
Proof.
  split; [reflexivity|]. intros (s & He & _). discriminate He.
Qed.

(** The literal vectors of the specification. *)
Example encode_Hello :
  Base58.encode (map byte_of_N (lit "Hello")) = Ok (lit "9Ajdvzr").
Proof. reflexivity. Qed.

Example decode_Hello_World :
  Base58.decode (lit "JxF12TrwUP45BMd") = Ok (map byte_of_N (lit "Hello World")).
Proof.
  rewrite decode_nonempty by discriminate. rewrite MAX_DECODE_LENGTH_eq.
  reflexivity.
Qed.

Example decode_rejects_invalid :
  Base58.decode (lit "invalid!@#") = Err (InvalidCharacter 108%N 4)
  /\ Base58.is_valid (lit "invalid!@#") = false
  /\ Base58.is_valid (lit "0OIl") = false.
Proof.
  split; [|split; reflexivity].
  rewrite decode_nonempty by discriminate. rewrite MAX_DECODE_LENGTH_eq.
  reflexivity.
Qed.

(** * The codec: zero bytes and zero-characters *)

Lemma ZERO_CHAR_is_1 : [Base58.ZERO_CHAR] = lit "1".
Proof. reflexivity. Qed.






(** * The codec: failure modes of [decode] *)


Lemma decode_invalid_iff text c pos :
  Base58.decode text = Err (InvalidCharacter c pos) <->
  length text <= Base58.MAX_DECODE_LENGTH
  /\ Base58.first_invalid 0 text = Some (c, pos).
Proof.
  destruct (list_eq_dec N.eq_dec text []) as [->|Hne].
  { split; [discriminate | intros [_ H]; discriminate H]. }
  rewrite decode_nonempty by exact Hne.
  generalize Base58.MAX_DECODE_LENGTH. intros M.
  destruct (Nat.ltb_spec M (length text)) as [Hlong|Hfit].
  - split; [discriminate | intros [Hle _]; lia].
  - destruct (Base58.first_invalid 0 text) as [[c0 p0]|].
    + split.
      * intros [= -> ->]. split; [exact Hfit | reflexivity].
      * intros [_ [= -> ->]]. reflexivity.
    + split; [discriminate | intros [_ H]; discriminate H].
Qed.

Lemma decode_length_iff text observed limit :
  Base58.decode text = Err (LengthExceeded observed limit) <->
  Base58.MAX_DECODE_LENGTH < length text
  /\ observed = length text /\ limit = Base58.MAX_DECODE_LENGTH.
Proof.
  destruct (list_eq_dec N.eq_dec text []) as [->|Hne].
  { split; [discriminate | intros [H _]; cbn [length] in H; lia]. }
  rewrite decode_nonempty by exact Hne.
  generalize Base58.MAX_DECODE_LENGTH. intros M.
  destruct (Nat.ltb_spec M (length text)) as [Hlong|Hfit].
  - split.
    + intros [= <- <-]. split; [exact Hlong|]. split; reflexivity.
    + intros (_ & -> & ->). reflexivity.
  - destruct (Base58.first_invalid 0 text) as [[c0 p0]|];
      (split; [discriminate | intros [Hlt _]; lia]).
Qed.

Lemma decode_ok_iff text b :
  Base58.decode text = Ok b <->
  text <> []
  /\ length text <= Base58.MAX_DECODE_LENGTH
  /\ Base58.first_invalid 0 text = None /\ b = Base58.decode_digits text.
Proof.
  destruct (list_eq_dec N.eq_dec text []) as [->|Hne].
  { split; [discriminate | intros [H _]; contradiction H; reflexivity]. }
  rewrite decode_nonempty by exact Hne.
  generalize Base58.MAX_DECODE_LENGTH. intros M.
  destruct (Nat.ltb_spec M (length text)) as [Hlong|Hfit].
  - split; [discriminate | intros (_ & Hle & _); lia].
  - destruct (Base58.first_invalid 0 text) as [[c0 p0]|].
    + split; [discriminate | intros (_ & _ & H & _); discriminate H].
    + split.
      * intros [= <-]. split; [exact Hne|]. split; [exact Hfit|].
        split; reflexivity.
      * intros (_ & _ & _ & ->). reflexivity.
Qed.

Lemma decode_empty_iff text :
  Base58.decode text = Err EmptyInput <-> text = [].
Proof.
  destruct (list_eq_dec N.eq_dec text []) as [->|Hne].
  { split; reflexivity. }
  rewrite decode_nonempty by exact Hne.
  generalize Base58.MAX_DECODE_LENGTH. intros M.
  destruct (M <? length text); [split; [discriminate | intros H; contradiction]|].
  destruct (Base58.first_invalid 0 text) as [[c0 p0]|];
    (split; [discriminate | intros H; contradiction]).
Qed.

(** C4, as the codec has it.  [decode] fails with an invalid-character error,
    carrying the first offending character and its position, exactly when the
    text is within the length bound and holds a character outside the
    alphabet; it fails with a length error exactly when the text is longer
    than the maximum decode length; it fails with the empty-input error
    exactly on the empty string; in every other case it succeeds. *)
Theorem decode_failure_modes (text : str) :
  (forall c pos,
      Base58.decode text = Err (InvalidCharacter c pos) <->
      length text <= Base58.MAX_DECODE_LENGTH
      /\ nth_error text pos = Some c
      /\ ~ In c Base58.ALPHABET
      /\ Forall (fun c' => In c' Base58.ALPHABET) (firstn pos text))
  /\ ((exists c pos, Base58.decode text = Err (InvalidCharacter c pos)) <->
      length text <= Base58.MAX_DECODE_LENGTH
      /\ exists c, In c text /\ ~ In c Base58.ALPHABET)
  /\ (forall observed limit,
         Base58.decode text = Err (LengthExceeded observed limit) <->
         Base58.MAX_DECODE_LENGTH < length text
         /\ observed = length text /\ limit = Base58.MAX_DECODE_LENGTH)
  /\ (Base58.decode text = Err EmptyInput <-> text = [])
  /\ ((exists b, Base58.decode text = Ok b) <->
      text <> []
      /\ length text <= Base58.MAX_DECODE_LENGTH
      /\ Forall (fun c => In c Base58.ALPHABET) text).
Proof.
  split; [|split; [|split; [|split]]].
  - intros c pos. rewrite decode_invalid_iff, first_invalid_Some. split.
    + intros (Hfit & i & Hi & Hn & Hc & Hf). cbn [Nat.add] in Hi. subst i.
      split; [exact Hfit|]. split; [exact Hn|]. split; [exact Hc | exact Hf].
    + intros (Hfit & Hn & Hc & Hf). split; [exact Hfit|].
      exists pos. split; [reflexivity|]. split; [exact Hn|].
      split; [exact Hc | exact Hf].
  - split.
    + intros (c & pos & E). apply decode_invalid_iff in E as [Hfit E].
      split; [exact Hfit|].
      apply first_invalid_Some in E as (i & _ & Hn & Hc & _).
      exists c. split; [eapply nth_error_In; exact Hn | exact Hc].
    + intros (Hfit & c & Hin & Hc).
      destruct (Base58.first_invalid 0 text) as [[c0 p0]|] eqn:E.
      * exists c0, p0. apply decode_invalid_iff. split; [exact Hfit | exact E].
      * apply first_invalid_None in E. rewrite Forall_forall in E.
        contradiction (Hc (E _ Hin)).
  - intros observed limit. apply decode_length_iff.
  - apply decode_empty_iff.
  - split.
    + intros (b & E). apply decode_ok_iff in E as (Hne & Hfit & E & _).
      split; [exact Hne|].
      split; [exact Hfit | apply (first_invalid_None text 0), E].
    + intros (Hne & Hfit & Hall). exists (Base58.decode_digits text).
      apply decode_ok_iff. split; [exact Hne|]. split; [exact Hfit|].
      split; [apply first_invalid_None, Hall | reflexivity].
Qed.

(** C4 as stated fails: the empty string holds no character outside the
    alphabet and is not longer than the bound, yet [decode] refuses it, with
    an error that is neither of the two the claim allows. *)
Lemma decode_failure_modes_counterexample :
  Base58.decode [] = Err EmptyInput
  /\ (forall c, ~ In c (@nil char))
  /\ length (@nil char) <= Base58.MAX_DECODE_LENGTH
  /\ ~ (forall text,
           (exists b, Base58.decode text = Ok b)
           \/ (exists c pos, Base58.decode text = Err (InvalidCharacter c pos))
           \/ (exists observed limit,
                  Base58.decode text = Err (LengthExceeded observed limit))).
Proof.
  split; [reflexivity|]. split; [intros c []|]. split; [apply Nat.le_0_l|].
  intros H. destruct (H []) as [(b & E)|[(c & pos & E)|(o & l & E)]];
    discriminate E.
Qed.



(** * The command line *)

Lemma line_count_app s t : line_count (s ++ t) = line_count s + line_count t.
Proof. apply count_occ_app. Qed.

Lemma line_count_cons_other c s : c <> NEWLINE -> line_count (c :: s) = line_count s.
Proof. intros H. apply count_occ_cons_neq. exact H. Qed.

Lemma lit_String a s : lit (String a s) = N_of_ascii a :: lit s.
Proof. reflexivity. Qed.

Lemma uint_text_one_line d :
  line_count (lit (DecimalString.NilEmpty.string_of_uint d)) = 0.
Proof.
  induction d; cbn [DecimalString.NilEmpty.string_of_uint];
    [reflexivity | rewrite lit_String, line_count_cons_other; [exact IHd | discriminate] ..].
Qed.

Lemma str_of_nat_one_line n : line_count (str_of_nat n) = 0.
Proof.
  unfold str_of_nat, DecimalString.NilZero.string_of_uint.
  destruct (Nat.to_uint n) eqn:E; try (rewrite <- E; apply uint_text_one_line).
  reflexivity.
Qed.

Lemma stdout_cons_print t tr :
  line_count (stdout (Output t :: tr)) = S (line_count t) + line_count (stdout tr).
Proof.
  unfold stdout. cbn [printed flat_map app].
  rewrite <- app_assoc, !line_count_app. cbn [app].
  change (line_count [NEWLINE]) with 1. fold (printed tr). lia.
Qed.

Lemma stdout_cons_call_encode data tr :
  line_count (stdout (Call_encode data :: tr)) = line_count (stdout tr).
Proof. reflexivity. Qed.

Lemma stdout_cons_call_decode text tr :
  line_count (stdout (Call_decode text :: tr)) = line_count (stdout tr).
Proof. reflexivity. Qed.

Lemma utf8_encode_ascii_a n :
  utf8_encode (repeat 97%N n) = Some (repeat Byte.x61 n).
Proof.
  induction n as [|n IH]; [reflexivity|].
  cbn [repeat utf8_encode]. rewrite IH. reflexivity.
Qed.

Section CLIFacts.
Variable codec : Codec.
Variable rt : Runtime.

Local Ltac run_io :=
  cbn [bind ret raise sys_exit try_except fst snd app printed flat_map].

Lemma print_accepted t :
  console_accepts rt t = true -> print rt t = ([Output t], Returned tt).
Proof. intros H. unfold print. rewrite H. reflexivity. Qed.

Lemma print_refused t :
  console_accepts rt t = false -> print rt t = ([], Raised (UnicodeEncodeError t)).
Proof. intros H. unfold print. rewrite H. reflexivity. Qed.

Lemma get_max_ok smax :
  codec_encode codec (repeat Byte.x61 _MAX_ENCODE_INPUT_LENGTH) = Ok smax ->
  _get_max_decode_input_length codec
  = ([Call_encode (repeat Byte.x61 _MAX_ENCODE_INPUT_LENGTH)], Returned (length smax)).
Proof.
  intros H. unfold _get_max_decode_input_length, Base58_encode.
  rewrite H. reflexivity.
Qed.

(** An input longer than the bound stops [decode_command] at its first
    check, whatever the console does with the message. *)
Lemma decode_command_too_long smax input_data :
  codec_encode codec (repeat Byte.x61 _MAX_ENCODE_INPUT_LENGTH) = Ok smax ->
  length smax < length input_data ->
  decode_command codec rt input_data
  = if console_accepts rt (length_error (length input_data) (length smax))
    then ([Call_encode (repeat Byte.x61 _MAX_ENCODE_INPUT_LENGTH);
           Output (length_error (length input_data) (length smax))], Exited 1%Z)
    else ([Call_encode (repeat Byte.x61 _MAX_ENCODE_INPUT_LENGTH)],
          Raised (UnicodeEncodeError
                    (length_error (length input_data) (length smax)))).
Proof.
  intros Hmax Hlen. unfold decode_command. rewrite (get_max_ok _ Hmax).
  run_io. rewrite (proj2 (Nat.ltb_lt _ _) Hlen). unfold print.
  destruct (console_accepts rt _); reflexivity.
Qed.

Lemma encode_command_too_long input_data :
  _MAX_ENCODE_INPUT_LENGTH < length input_data ->
  console_accepts rt (length_error (length input_data) _MAX_ENCODE_INPUT_LENGTH) = true ->
  encode_command codec rt input_data
  = ([Output (length_error (length input_data) _MAX_ENCODE_INPUT_LENGTH)], Exited 1%Z).
Proof.
  intros Hlen Hcons. unfold encode_command.
  rewrite (proj2 (Nat.ltb_lt _ _) Hlen), (print_accepted _ Hcons). reflexivity.
Qed.

(** Within the character bound, [encode_command] hands the UTF-8 bytes to
    the codec before anything is printed. *)
Lemma encode_command_calls_codec input_data data :
  length input_data <= _MAX_ENCODE_INPUT_LENGTH ->
  utf8_encode input_data = Some data ->
  encode_command codec rt input_data
  = match codec_encode codec data with
    | Ok encoded =>
        if console_accepts rt encoded
        then ([Call_encode data; Output encoded], Returned tt)
        else bind ([Call_encode data], Returned tt)
               (fun _ => bind (print rt (lit "Error: Cannot encode input as UTF-8: "
                                           ++ unicode_error_text rt encoded))
                           (fun _ => sys_exit 1%Z))
    | Err e =>
        bind ([Call_encode data], Returned tt)
          (fun _ => bind (print rt (lit "Error: " ++ error_text codec e))
                      (fun _ => sys_exit 1%Z))
    end.
Proof.
  intros Hlen Hutf. unfold encode_command.
  rewrite (proj2 (Nat.ltb_ge _ _) Hlen). unfold str_encode, Base58_encode.
  rewrite Hutf. run_io.
  destruct (codec_encode codec data) as [encoded|e]; run_io.
  - unfold print at 1. destruct (console_accepts rt encoded); run_io.
    + reflexivity.
    + destruct (print rt _) as [tr [[]|code|e]]; reflexivity.
  - destruct (print rt _) as [tr [[]|code|e']]; reflexivity.
Qed.

End CLIFacts.

Lemma str_eqb_eq s t : str_eqb s t = true <-> s = t.
Proof.
  unfold str_eqb. destruct (list_eq_dec N.eq_dec s t) as [E|E].
  - split; [intros _; exact E | reflexivity].
  - split; [discriminate | intros H; contradiction].
Qed.

Lemma single_print_lines tr t :
  printed tr = [t] -> line_count (stdout tr) = S (line_count t).
Proof.
  intros H. unfold stdout. rewrite H. cbn [flat_map].
  rewrite app_nil_r, line_count_app. change (line_count [NEWLINE]) with 1. lia.
Qed.

Lemma printed_lines ps :
  line_count (flat_map (fun s => s ++ [NEWLINE]) ps)
  = list_sum (map (fun s => S (line_count s)) ps).
Proof.
  induction ps as [|t ps IH]; [reflexivity|].
  cbn [flat_map map]. rewrite !line_count_app, IH.
  change (line_count [NEWLINE]) with 1. unfold list_sum. cbn [fold_right]. lia.
Qed.

Lemma usage_lines_count n :
  line_count (flat_map (fun s => s ++ [NEWLINE]) (usage_lines n)) = 11.
Proof.
  rewrite printed_lines. unfold usage_lines. cbn [map list_sum].
  rewrite !line_count_app, !str_of_nat_one_line. reflexivity.
Qed.

Section CLIOutput.
Variable codec : Codec.
Variable rt : Runtime.
Variable smax : str.
Hypothesis Hcons : forall t, console_accepts rt t = true.
Hypothesis Hmax :
  codec_encode codec (repeat Byte.x61 _MAX_ENCODE_INPUT_LENGTH) = Ok smax.

Local Ltac run_io :=
  cbn [bind ret raise sys_exit try_except fst snd app printed flat_map].

Local Ltac prints := rewrite ?(fun t => print_accepted rt t (Hcons t)).

Lemma length_error_one_line a b :
  exists msg, length_error a b = lit "Error: " ++ msg /\ line_count msg = 0.
Proof.
  exists (lit "Input length " ++ str_of_nat a
            ++ lit " exceeds maximum of " ++ str_of_nat b).
  split; [reflexivity|].
  rewrite !line_count_app, !str_of_nat_one_line. reflexivity.
Qed.

Lemma print_usage_ok :
  exists tr, print_usage codec rt = (tr, Returned tt)
             /\ printed tr = usage_lines (length smax).
Proof.
  unfold print_usage. rewrite (get_max_ok codec smax Hmax).
  prints. run_io. prints. run_io. eexists. split; reflexivity.
Qed.

Lemma main_missing_arguments (argv : list str) :
  length argv < 3 ->
  printed (fst (main codec rt argv)) = usage_lines (length smax)
  /\ snd (main codec rt argv) = Exited 1%Z.
Proof.
  intros Hlen. unfold main. rewrite (proj2 (Nat.ltb_lt _ _) Hlen).
  destruct print_usage_ok as (tr & E & Hp). rewrite E. run_io.
  rewrite app_nil_r. split; [exact Hp | reflexivity].
Qed.

Lemma main_dispatch (argv : list str) :
  3 <= length argv ->
  main codec rt argv
  = let command := lower rt (nth 1 argv []) in
    let input_data := nth 2 argv [] in
    if str_eqb command (lit "encode") then encode_command codec rt input_data
    else if str_eqb command (lit "decode") then decode_command codec rt input_data
    else bind (print rt (lit "Error: Unknown command '" ++ command ++ lit "'"))
           (fun _ => bind (print_usage codec rt) (fun _ => sys_exit 1%Z)).
Proof.
  intros Hlen. unfold main. rewrite (proj2 (Nat.ltb_ge _ _) Hlen). run_io.
  cbv zeta.
  destruct (if str_eqb _ _ then _ else _) as [tr o]. reflexivity.
Qed.

End CLIOutput.

(** * The command line over the codec of the specification *)

Lemma spec_error_text_one_line e : line_count (spec_error_text e) = 0.
Proof.
  destruct e; unfold spec_error_text;
    rewrite ?line_count_app, ?str_of_nat_one_line; reflexivity.
Qed.

Lemma spec_codec_max :
  codec_encode spec_codec (repeat Byte.x61 _MAX_ENCODE_INPUT_LENGTH)
  = Ok (Base58.encode_digits (repeat Byte.x61 _MAX_ENCODE_INPUT_LENGTH)).
Proof. exact (proj1 spec_max_encoding). Qed.

(** C3. The decode bound of the command line is the length of the encoding of
    2048 bytes [0x61], and [decode_command] answers every longer input with
    the length error and exit status 1. *)
Theorem max_decode_length_derivation
    (codec : Codec) (rt : Runtime) (smax : str) (input_data : str) :
  codec_encode codec (repeat Byte.x61 _MAX_ENCODE_INPUT_LENGTH) = Ok smax ->
  length smax < length input_data ->
  console_accepts rt (length_error (length input_data) (length smax)) = true ->
  _get_max_decode_input_length codec
  = ([Call_encode (repeat Byte.x61 _MAX_ENCODE_INPUT_LENGTH)], Returned (length smax))
  /\ printed (fst (decode_command codec rt input_data))
     = [lit "Error: Input length " ++ str_of_nat (length input_data)
          ++ lit " exceeds maximum of " ++ str_of_nat (length smax)]
  /\ snd (decode_command codec rt input_data) = Exited 1%Z.
Proof.
  intros Hmax Hlen Hcons. split; [apply get_max_ok, Hmax|].
  rewrite (decode_command_too_long codec rt smax input_data Hmax Hlen), Hcons.
  split; reflexivity.
Qed.

Lemma max_decode_length_derivation_witness :
  exists smax : str,
    length smax = 2797
    /\ _get_max_decode_input_length spec_codec
       = ([Call_encode (repeat Byte.x61 _MAX_ENCODE_INPUT_LENGTH)], Returned (length smax))
    /\ printed (fst (decode_command spec_codec utf8_console (repeat 49%N 3000)))
       = [lit "Error: Input length "
            ++ str_of_nat (length (repeat 49%N 3000))
            ++ lit " exceeds maximum of " ++ str_of_nat (length smax)]
    /\ snd (decode_command spec_codec utf8_console (repeat 49%N 3000)) = Exited 1%Z.
Proof.
  exists (Base58.encode_digits (repeat Byte.x61 _MAX_ENCODE_INPUT_LENGTH)).
  split; [exact (proj2 spec_max_encoding)|].
  apply (max_decode_length_derivation spec_codec utf8_console
           (Base58.encode_digits (repeat Byte.x61 _MAX_ENCODE_INPUT_LENGTH))
           (repeat 49%N 3000)).
  - exact spec_codec_max.
  - rewrite (proj2 spec_max_encoding), repeat_length. lia.
  - reflexivity.
Defined.

(** C10. For an input longer than the decode bound, [decode_command] never
    calls [Base58.decode] and ends with exit status 1, whatever characters the
    input holds; the one text it prints is the length error. *)
Theorem decode_command_checks_length_first
    (codec : Codec) (rt : Runtime) (smax : str) (input_data : str) :
  codec_encode codec (repeat Byte.x61 _MAX_ENCODE_INPUT_LENGTH) = Ok smax ->
  length smax < length input_data ->
  (forall text, ~ In (Call_decode text) (fst (decode_command codec rt input_data)))
  /\ exit_status (snd (decode_command codec rt input_data)) = 1%Z
  /\ (console_accepts rt (length_error (length input_data) (length smax)) = true ->
      printed (fst (decode_command codec rt input_data))
      = [length_error (length input_data) (length smax)]).
Proof.
  intros Hmax Hlen.
  rewrite (decode_command_too_long codec rt smax input_data Hmax Hlen).
  destruct (console_accepts rt _); cbn [fst snd exit_status].
  - split; [|split; [reflexivity | intros _; reflexivity]].
    intros text [H|[H|[]]]; discriminate H.
  - split; [|split; [reflexivity | discriminate]].
    intros text [H|[]]; discriminate H.
Qed.

Lemma decode_command_checks_length_first_witness :
  (forall text,
      ~ In (Call_decode text)
          (fst (decode_command spec_codec utf8_console (repeat 33%N 2798))))
  /\ exit_status (snd (decode_command spec_codec utf8_console (repeat 33%N 2798))) = 1%Z.
Proof.
  destruct (decode_command_checks_length_first spec_codec utf8_console
              (Base58.encode_digits (repeat Byte.x61 _MAX_ENCODE_INPUT_LENGTH))
              (repeat 33%N 2798)) as (Hcall & Hexit & _).
  - exact spec_codec_max.
  - rewrite (proj2 spec_max_encoding), repeat_length. lia.
  - split; [exact Hcall | exact Hexit].
Defined.

(** C9. [encode_command] bounds the number of characters, not of bytes: for an
    input of at most 2048 characters whose UTF-8 encoding has more than 2048
    bytes, the first thing it does is to call [Base58.encode] on those bytes;
    what is printed afterwards is the codec's answer. *)
Theorem encode_command_counts_characters
    (codec : Codec) (rt : Runtime) (input_data : str) (data : bytes) :
  length input_data <= _MAX_ENCODE_INPUT_LENGTH ->
  utf8_encode input_data = Some data ->
  _MAX_ENCODE_INPUT_LENGTH < length data ->
  exists tr o,
    encode_command codec rt input_data = (Call_encode data :: tr, o)
    /\ (forall e,
           codec_encode codec data = Err e ->
           console_accepts rt (lit "Error: " ++ error_text codec e) = true ->
           tr = [Output (lit "Error: " ++ error_text codec e)] /\ o = Exited 1%Z)
    /\ (forall encoded,
           codec_encode codec data = Ok encoded ->
           console_accepts rt encoded = true ->
           tr = [Output encoded] /\ o = Returned tt).
Proof.
  intros Hlen Hutf _.
  rewrite (encode_command_calls_codec codec rt input_data data Hlen Hutf).
  destruct (codec_encode codec data) as [encoded|e].
  - destruct (console_accepts rt encoded) eqn:Hc.
    + exists [Output encoded], (Returned tt). split; [reflexivity|].
      split; [discriminate | intros ? [= <-] _; split; reflexivity].
    + cbn [bind]. destruct (bind (print rt _) _) as [tr o].
      exists tr, o. split; [reflexivity|].
      split; [discriminate | intros ? [= <-] H; congruence].
  - cbn [bind]. destruct (print rt (lit "Error: " ++ error_text codec e))
      as [tr o] eqn:Hp.
    unfold print in Hp. cbn [bind].
    destruct (console_accepts rt (lit "Error: " ++ error_text codec e)) eqn:Hc.
    + injection Hp as <- <-. cbn [bind sys_exit app].
      exists [Output (lit "Error: " ++ error_text codec e)], (Exited 1%Z).
      split; [reflexivity|].
      split; [intros ? [= <-] _; split; reflexivity | discriminate].
    + injection Hp as <- <-. cbn [bind raise app].
      eexists _, _. split; [reflexivity|].
      split; [intros ? [= <-] H; congruence | discriminate].
Qed.

Lemma encode_command_counts_characters_witness :
  exists (data : bytes) tr o,
    utf8_encode (repeat 233%N 1025) = Some data
    /\ length (repeat 233%N 1025) <= _MAX_ENCODE_INPUT_LENGTH
    /\ _MAX_ENCODE_INPUT_LENGTH < length data
    /\ encode_command spec_codec utf8_console (repeat 233%N 1025)
       = (Call_encode data :: tr, o).
Proof.
  assert (Hutf : exists data, utf8_encode (repeat 233%N 1025) = Some data
                              /\ length data = 2050).
  { eexists. split; [vm_compute; reflexivity | reflexivity]. }
  destruct Hutf as (data & Hutf & Hlen).
  assert (Hin : length (repeat 233%N 1025) <= _MAX_ENCODE_INPUT_LENGTH)
    by (rewrite repeat_length; unfold _MAX_ENCODE_INPUT_LENGTH; lia).
  assert (Hout : _MAX_ENCODE_INPUT_LENGTH < length data)
    by (rewrite Hlen; unfold _MAX_ENCODE_INPUT_LENGTH; lia).
  destruct (encode_command_counts_characters spec_codec utf8_console
              (repeat 233%N 1025) data Hin Hutf Hout) as (tr & o & E & _).
  exists data, tr, o. split; [exact Hutf|]. split; [exact Hin|].
  split; [exact Hout | exact E].
Defined.

(** C7. Length boundary: 2048 bytes [0x61] are encoded, 2049 are refused with
    a LengthExceeded error that carries the observed length 2049 and the limit
    2048; on the command line, 2048 characters [a] reach the codec and their
    encoding is printed, 2049 end with the message naming both numbers and
    exit status 1. *)
Theorem encode_length_boundary :
  (exists s, Base58.encode (repeat Byte.x61 2048) = Ok s
             /\ encode_command spec_codec utf8_console (repeat 97%N 2048)
                = ([Call_encode (repeat Byte.x61 2048); Output s], Returned tt))
  /\ Base58.encode (repeat Byte.x61 2049) = Err (LengthExceeded 2049 2048)
  /\ encode_command spec_codec utf8_console (repeat 97%N 2049)
     = ([Output (lit "Error: Input length 2049 exceeds maximum of 2048")],
        Exited 1%Z).
Proof.
  split; [|split].
  - exists (Base58.encode_digits (repeat Byte.x61 2048)).
    split; [exact (proj1 spec_max_encoding)|].
    rewrite (encode_command_calls_codec spec_codec utf8_console
               (repeat 97%N 2048) (repeat Byte.x61 2048)).
    + change 2048 with _MAX_ENCODE_INPUT_LENGTH at 1. rewrite spec_codec_max.
      reflexivity.
    + rewrite repeat_length. apply le_n.
    + apply utf8_encode_ascii_a.
  - unfold Base58.encode. rewrite repeat_length. reflexivity.
  - rewrite encode_command_too_long.
    + rewrite repeat_length. reflexivity.
    + rewrite repeat_length. unfold _MAX_ENCODE_INPUT_LENGTH. lia.
    + reflexivity.
Qed.

(** C2 as stated fails: run without arguments, the program prints the eleven
    lines of its usage text before it ends with status 1. *)
Lemma one_line_per_run_counterexample :
  line_count (stdout (fst (main spec_codec utf8_console [lit "splurge_base58"]))) = 11
  /\ exit_status (snd (main spec_codec utf8_console [lit "splurge_base58"])) = 1%Z
  /\ ~ one_line_per_run spec_codec utf8_console.
Proof.
  destruct (main_missing_arguments spec_codec utf8_console
              (Base58.encode_digits (repeat Byte.x61 _MAX_ENCODE_INPUT_LENGTH))
              (fun t => eq_refl) spec_codec_max [lit "splurge_base58"])
    as [Hp Ho]; [cbn [length]; lia|].
  assert (Hl : line_count (stdout (fst (main spec_codec utf8_console
                                          [lit "splurge_base58"]))) = 11)
    by (unfold stdout; rewrite Hp; apply usage_lines_count).
  split; [exact Hl|]. split; [rewrite Ho; reflexivity|].
  intros Hclaim. specialize (Hclaim [lit "splurge_base58"]).
  rewrite Hl in Hclaim. discriminate Hclaim.
Qed.

(** * What every run keeps to *)

Section Discipline.
Variable codec : Codec.
Variable rt : Runtime.

Lemma exits_with_1_bind (A B : Type) (m : io A) (k : A -> io B) :
  exits_with_1 A m -> (forall a, exits_with_1 B (k a)) -> exits_with_1 B (bind m k).
Proof.
  intros Hm Hk code. destruct m as [tr [a|c|e]]; cbn [bind].
  - specialize (Hk a). destruct (k a) as [tr' o]. exact (Hk code).
  - cbn [snd]. intros [= <-]. apply Hm. reflexivity.
  - discriminate.
Qed.

Lemma exits_with_1_try (A : Type) (body : io A) handler :
  exits_with_1 A body ->
  (forall e h, handler e = Some h -> exits_with_1 A h) ->
  exits_with_1 A (try_except body handler).
Proof.
  intros Hb Hh code. destruct body as [tr [a|c|e]]; cbn [try_except].
  - discriminate.
  - cbn [snd]. intros [= <-]. apply Hb. reflexivity.
  - destruct (handler e) as [h|] eqn:E; [|discriminate].
    specialize (Hh e h E). destruct h as [tr' o]. exact (Hh code).
Qed.

Lemma exits_with_1_print t : exits_with_1 unit (print rt t).
Proof. intros code. unfold print. destruct (console_accepts rt t); discriminate. Qed.

Lemma exits_with_1_exit (A : Type) : exits_with_1 A (sys_exit 1%Z).
Proof. intros code [= <-]. reflexivity. Qed.

Lemma exits_with_1_get_max : exits_with_1 nat (_get_max_decode_input_length codec).
Proof.
  intros code. unfold _get_max_decode_input_length, Base58_encode.
  destruct (codec_encode codec _); discriminate.
Qed.

Lemma exits_with_1_print_usage : exits_with_1 unit (print_usage codec rt).
Proof.
  unfold print_usage.
  repeat (apply exits_with_1_bind; [first [apply exits_with_1_print
                                          | apply exits_with_1_get_max]|intros ?]).
  apply exits_with_1_print.
Qed.

Lemma exits_with_1_report t : exits_with_1 unit (bind (print rt t) (fun _ => sys_exit 1%Z)).
Proof.
  apply exits_with_1_bind; [apply exits_with_1_print | intros _; apply exits_with_1_exit].
Qed.

Lemma exits_with_1_encode_command input_data :
  exits_with_1 unit (encode_command codec rt input_data).
Proof.
  unfold encode_command. apply exits_with_1_bind.
  - destruct (_ <? _); [apply exits_with_1_report | discriminate].
  - intros _. apply exits_with_1_try.
    + unfold str_encode, Base58_encode.
      destruct (utf8_encode input_data) as [data|]; [|discriminate].
      cbn [bind ret app]. destruct (codec_encode codec data) as [s|e]; [|discriminate].
      cbn [bind]. intros code. unfold print.
      destruct (console_accepts rt s); discriminate.
    + intros e h. destruct e; intros [= <-]; apply exits_with_1_report.
Qed.

Lemma exits_with_1_decode_command input_data :
  exits_with_1 unit (decode_command codec rt input_data).
Proof.
  unfold decode_command. apply exits_with_1_bind; [apply exits_with_1_get_max|].
  intros n. apply exits_with_1_bind.
  - destruct (_ <? _); [apply exits_with_1_report | discriminate].
  - intros _. apply exits_with_1_try.
    + unfold Base58_decode, bytes_decode.
      destruct (codec_decode codec input_data) as [b|e]; [|discriminate].
      cbn [bind]. destruct (utf8_decode b) as [s|]; [|discriminate].
      cbn [bind ret app]. intros code. unfold print.
      destruct (console_accepts rt s); discriminate.
    + intros e h. destruct e; intros [= <-]; apply exits_with_1_report.
Qed.

Lemma exits_with_1_main argv : exits_with_1 unit (main codec rt argv).
Proof.
  unfold main. apply exits_with_1_bind.
  - destruct (_ <? _); [|discriminate].
    apply exits_with_1_bind; [apply exits_with_1_print_usage|].
    intros _. apply exits_with_1_exit.
  - intros _. cbv zeta. destruct (str_eqb _ _); [apply exits_with_1_encode_command|].
    destruct (str_eqb _ _); [apply exits_with_1_decode_command|].
    apply exits_with_1_bind; [apply exits_with_1_print|]. intros _.
    apply exits_with_1_bind; [apply exits_with_1_print_usage|].
    intros _. apply exits_with_1_exit.
Qed.

Lemma decodes_only_bind (A B : Type) arg (m : io A) (k : A -> io B) :
  decodes_only A arg m -> (forall a, decodes_only B arg (k a)) ->
  decodes_only B arg (bind m k).
Proof.
  intros Hm Hk text. destruct m as [tr [a|c|e]]; cbn [bind]; try exact (Hm text).
  specialize (Hk a text). destruct (k a) as [tr' o]. cbn [fst] in *.
  intros Hin. apply in_app_or in Hin as [Hin|Hin]; [exact (Hm text Hin) | exact (Hk Hin)].
Qed.

Lemma decodes_only_try (A : Type) arg (body : io A) handler :
  decodes_only A arg body ->
  (forall e h, handler e = Some h -> decodes_only A arg h) ->
  decodes_only A arg (try_except body handler).
Proof.
  intros Hb Hh text. destruct body as [tr [a|c|e]]; cbn [try_except]; try exact (Hb text).
  destruct (handler e) as [h|] eqn:E; [|exact (Hb text)].
  specialize (Hh e h E text). destruct h as [tr' o]. cbn [fst] in *.
  intros Hin. apply in_app_or in Hin as [Hin|Hin]; [exact (Hb text Hin) | exact (Hh Hin)].
Qed.

Lemma never_decodes_only (A : Type) arg (m : io A) :
  never_decodes A m -> decodes_only A arg m.
Proof. intros H text Hin. contradiction (H text Hin). Qed.

Lemma never_decodes_bind (A B : Type) (m : io A) (k : A -> io B) :
  never_decodes A m -> (forall a, never_decodes B (k a)) -> never_decodes B (bind m k).
Proof.
  intros Hm Hk text. destruct m as [tr [a|c|e]]; cbn [bind]; try exact (Hm text).
  specialize (Hk a text). destruct (k a) as [tr' o]. cbn [fst] in *.
  intros Hin. apply in_app_or in Hin as [Hin|Hin]; [exact (Hm text Hin) | exact (Hk Hin)].
Qed.

Lemma never_decodes_try (A : Type) (body : io A) handler :
  never_decodes A body ->
  (forall e h, handler e = Some h -> never_decodes A h) ->
  never_decodes A (try_except body handler).
Proof.
  intros Hb Hh text. destruct body as [tr [a|c|e]]; cbn [try_except]; try exact (Hb text).
  destruct (handler e) as [h|] eqn:E; [|exact (Hb text)].
  specialize (Hh e h E text). destruct h as [tr' o]. cbn [fst] in *.
  intros Hin. apply in_app_or in Hin as [Hin|Hin]; [exact (Hb text Hin) | exact (Hh Hin)].
Qed.

Lemma never_decodes_print t : never_decodes unit (print rt t).
Proof.
  intros text. unfold print. destruct (console_accepts rt t); cbn [fst raise].
  - intros [H|[]]. discriminate H.
  - intros [].
Qed.

Lemma never_decodes_exit (A : Type) code : never_decodes A (sys_exit code).
Proof. intros text []. Qed.

Lemma never_decodes_encode data : never_decodes str (Base58_encode codec data).
Proof. intros text [H|[]]. discriminate H. Qed.

Lemma never_decodes_get_max : never_decodes nat (_get_max_decode_input_length codec).
Proof.
  unfold _get_max_decode_input_length.
  apply never_decodes_bind; [apply never_decodes_encode | intros s text []].
Qed.

Lemma never_decodes_report t :
  never_decodes unit (bind (print rt t) (fun _ => sys_exit 1%Z)).
Proof.
  apply never_decodes_bind; [apply never_decodes_print | intros _; apply never_decodes_exit].
Qed.

Lemma never_decodes_print_usage : never_decodes unit (print_usage codec rt).
Proof.
  unfold print_usage.
  repeat (apply never_decodes_bind; [first [apply never_decodes_print
                                           | apply never_decodes_get_max]|intros ?]).
  apply never_decodes_print.
Qed.

Lemma never_decodes_encode_command input_data :
  never_decodes unit (encode_command codec rt input_data).
Proof.
  unfold encode_command. apply never_decodes_bind.
  - destruct (_ <? _); [apply never_decodes_report | intros text []].
  - intros _. apply never_decodes_try.
    + apply never_decodes_bind.
      * unfold str_encode. destruct (utf8_encode input_data); intros text [].
      * intros data. apply never_decodes_bind;
          [apply never_decodes_encode | intros s; apply never_decodes_print].
    + intros e h. destruct e; intros [= <-]; apply never_decodes_report.
Qed.

Lemma decodes_only_decode_command input_data :
  decodes_only unit input_data (decode_command codec rt input_data).
Proof.
  unfold decode_command.
  apply decodes_only_bind; [apply never_decodes_only, never_decodes_get_max|].
  intros n. apply decodes_only_bind.
  - apply never_decodes_only.
    destruct (_ <? _); [apply never_decodes_report | intros text []].
  - intros _. apply decodes_only_try.
    + apply decodes_only_bind.
      * intros text [H|[]]. injection H as <-. reflexivity.
      * intros b. apply never_decodes_only, never_decodes_bind.
        { unfold bytes_decode. destruct (utf8_decode b); intros text []. }
        intros s. apply never_decodes_print.
    + intros e h. destruct e; intros [= <-];
        apply never_decodes_only, never_decodes_report.
Qed.

End Discipline.

(** X1. Whatever the codec, the console and the arguments, a run ends with
    exit status 0 or 1: [main] returns, or every [sys.exit] it reaches carries
    1, or an exception escapes. *)
Theorem main_exit_status_0_or_1 (codec : Codec) (rt : Runtime) (argv : list str) :
  exit_status (snd (main codec rt argv)) = 0%Z
  \/ exit_status (snd (main codec rt argv)) = 1%Z.
Proof.
  pose proof (exits_with_1_main codec rt argv) as H. unfold exits_with_1 in H.
  destruct (snd (main codec rt argv)) as [a|code|e]; cbn [exit_status].
  - left. reflexivity.
  - right. apply H. reflexivity.
  - right. reflexivity.
Qed.

Lemma bind_exit (A B C : Type) (m : io A) code (k : B -> io C) :
  bind (bind m (fun _ => sys_exit code)) k = bind m (fun _ => sys_exit code).
Proof. destruct m as [tr [a|c|e]]; reflexivity. Qed.

Lemma never_decodes_usage_exit (codec : Codec) (rt : Runtime) :
  never_decodes unit (bind (print_usage codec rt) (fun _ => sys_exit 1%Z)).
Proof.
  apply never_decodes_bind; [apply never_decodes_print_usage|].
  intros _. apply never_decodes_exit.
Qed.

(** X2. [Base58.decode] is called only for the [decode] command, and only on
    the third argument exactly as it was given. *)
Theorem main_decodes_only_the_argument
    (codec : Codec) (rt : Runtime) (argv : list str) (text : str) :
  In (Call_decode text) (fst (main codec rt argv)) ->
  3 <= length argv
  /\ lower rt (nth 1 argv []) = lit "decode"
  /\ text = nth 2 argv [].
Proof.
  intros Hin. destruct (Nat.ltb_spec (length argv) 3) as [Hshort|Hlen].
  - exfalso. revert Hin. unfold main. rewrite (proj2 (Nat.ltb_lt _ _) Hshort).
    rewrite bind_exit. apply (never_decodes_usage_exit codec rt text).
  - split; [exact Hlen|]. rewrite (main_dispatch codec rt argv Hlen) in Hin.
    cbv zeta in Hin.
    destruct (str_eqb (lower rt (nth 1 argv [])) (lit "encode")) eqn:E1.
    + contradiction (never_decodes_encode_command codec rt (nth 2 argv []) text).
    + destruct (str_eqb (lower rt (nth 1 argv [])) (lit "decode")) eqn:E2.
      * split; [apply str_eqb_eq, E2|].
        exact (decodes_only_decode_command codec rt (nth 2 argv []) text Hin).
      * exfalso. revert Hin.
        apply (never_decodes_bind _ _ _ _ (never_decodes_print rt _)
                 (fun _ => never_decodes_usage_exit codec rt) text).
Qed.

(** * The two commands, case by case *)

Section Commands.
Variable codec : Codec.
Variable rt : Runtime.

Local Ltac run_io :=
  cbn [bind ret raise sys_exit try_except fst snd app printed flat_map].

(** Printing an error and leaving: status 1 whether or not the console takes
    the text. *)
Lemma report_run t :
  bind (print rt t) (fun _ => @sys_exit unit 1%Z)
  = if console_accepts rt t then ([Output t], Exited 1%Z)
    else ([], Raised (UnicodeEncodeError t)).
Proof. unfold print. destruct (console_accepts rt t); reflexivity. Qed.

Lemma report_status t :
  exit_status (snd (bind (print rt t) (fun _ => @sys_exit unit 1%Z))) = 1%Z.
Proof. rewrite report_run. destruct (console_accepts rt t); reflexivity. Qed.

Lemma encode_command_run input_data :
  length input_data <= _MAX_ENCODE_INPUT_LENGTH ->
  encode_command codec rt input_data
  = match utf8_encode input_data with
    | None =>
        bind (print rt (lit "Error: Cannot encode input as UTF-8: "
                          ++ unicode_error_text rt input_data))
          (fun _ => sys_exit 1%Z)
    | Some data =>
        bind ([Call_encode data], Returned tt)
          (fun _ =>
             match codec_encode codec data with
             | Err e => bind (print rt (lit "Error: " ++ error_text codec e))
                          (fun _ => sys_exit 1%Z)
             | Ok encoded =>
                 if console_accepts rt encoded then ([Output encoded], Returned tt)
                 else bind (print rt (lit "Error: Cannot encode input as UTF-8: "
                                        ++ unicode_error_text rt encoded))
                        (fun _ => sys_exit 1%Z)
             end)
    end.
Proof.
  intros Hlen. unfold encode_command. rewrite (proj2 (Nat.ltb_ge _ _) Hlen).
  unfold str_encode, Base58_encode.
  destruct (utf8_encode input_data) as [data|]; run_io.
  - destruct (codec_encode codec data) as [encoded|e]; run_io.
    + unfold print at 1. destruct (console_accepts rt encoded); run_io;
        [reflexivity|].
      destruct (bind (print rt _) _) as [tr o]. reflexivity.
    + destruct (bind (print rt _) _) as [tr o]. reflexivity.
  - destruct (bind (print rt _) _) as [tr o]. reflexivity.
Qed.

Lemma decode_command_run smax input_data :
  codec_encode codec (repeat Byte.x61 _MAX_ENCODE_INPUT_LENGTH) = Ok smax ->
  length input_data <= length smax ->
  decode_command codec rt input_data
  = bind ([Call_encode (repeat Byte.x61 _MAX_ENCODE_INPUT_LENGTH);
           Call_decode input_data], Returned tt)
      (fun _ =>
         match codec_decode codec input_data with
         | Err e => bind (print rt (lit "Error: " ++ error_text codec e))
                      (fun _ => sys_exit 1%Z)
         | Ok decoded =>
             match utf8_decode decoded with
             | None => bind (print rt (lit "Error: Decoded data is not valid UTF-8"))
                         (fun _ => sys_exit 1%Z)
             | Some result =>
                 if console_accepts rt result then ([Output result], Returned tt)
                 else bind (print rt (lit "Error: Cannot display decoded data in current console encoding"))
                        (fun _ => sys_exit 1%Z)
             end
         end).
Proof.
  intros Hmax Hfit. unfold decode_command. rewrite (get_max_ok codec smax Hmax).
  run_io. rewrite (proj2 (Nat.ltb_ge _ _) Hfit). run_io.
  unfold Base58_decode, bytes_decode.
  destruct (codec_decode codec input_data) as [decoded|e]; run_io.
  - destruct (utf8_decode decoded) as [result|]; run_io.
    + unfold print at 1. destruct (console_accepts rt result); run_io;
        [reflexivity|].
      destruct (bind (print rt _) _) as [tr o]. reflexivity.
    + destruct (bind (print rt _) _) as [tr o]. reflexivity.
  - destruct (bind (print rt _) _) as [tr o]. reflexivity.
Qed.

Lemma decode_command_no_bound e input_data :
  codec_encode codec (repeat Byte.x61 _MAX_ENCODE_INPUT_LENGTH) = Err e ->
  decode_command codec rt input_data
  = ([Call_encode (repeat Byte.x61 _MAX_ENCODE_INPUT_LENGTH)],
     Raised (Base58_error e)).
Proof.
  intros Hmax. unfold decode_command, _get_max_decode_input_length, Base58_encode.
  rewrite Hmax. reflexivity.
Qed.

End Commands.

(** X3. [encode_command] ends with status 0 exactly when the argument has at
    most 2048 characters, is encodable as UTF-8, the codec encodes those bytes
    and the console takes the result; the result is then the one text it
    printed. *)
Theorem encode_command_succeeds_iff
    (codec : Codec) (rt : Runtime) (input_data : str) :
  exit_status (snd (encode_command codec rt input_data)) = 0%Z <->
  exists data encoded,
    length input_data <= _MAX_ENCODE_INPUT_LENGTH
    /\ utf8_encode input_data = Some data
    /\ codec_encode codec data = Ok encoded
    /\ console_accepts rt encoded = true
    /\ printed (fst (encode_command codec rt input_data)) = [encoded].
Proof.
  destruct (Nat.ltb_spec _MAX_ENCODE_INPUT_LENGTH (length input_data)) as [Hlong|Hfit].
  - split.
    + unfold encode_command. rewrite (proj2 (Nat.ltb_lt _ _) Hlong).
      rewrite bind_exit, report_status. discriminate.
    + intros (data & encoded & Hlen & _). lia.
  - rewrite (encode_command_run codec rt input_data Hfit).
    destruct (utf8_encode input_data) as [data|] eqn:Hu.
    + cbn [bind]. destruct (codec_encode codec data) as [encoded|e] eqn:He.
      * destruct (console_accepts rt encoded) eqn:Hc.
        { split; [intros _|reflexivity]. exists data, encoded.
          split; [exact Hfit|]. split; [reflexivity|]. split; [exact He|].
          split; [exact Hc | reflexivity]. }
        { pose proof (report_status rt (lit "Error: Cannot encode input as UTF-8: "
                                          ++ unicode_error_text rt encoded)) as Hs.
          destruct (bind (print rt _) _) as [tr o]. cbn [snd] in *.
          split; [rewrite Hs; discriminate|].
          intros (d & s & _ & [= <-] & He' & Hc' & _). congruence. }
      * pose proof (report_status rt (lit "Error: " ++ error_text codec e)) as Hs.
        destruct (bind (print rt _) _) as [tr o]. cbn [snd] in *.
        split; [rewrite Hs; discriminate|].
        intros (d & s & _ & [= <-] & He' & _). congruence.
    + rewrite report_status.
      split; [discriminate | intros (d & s & _ & H & _); discriminate H].
Qed.

(** X4. [decode_command] ends with status 0 exactly when the bound computation
    succeeds, the argument is not longer than the bound, the codec decodes it,
    the bytes are valid UTF-8 and the console takes the text; that text is
    then the one it printed. *)
Theorem decode_command_succeeds_iff
    (codec : Codec) (rt : Runtime) (input_data : str) :
  exit_status (snd (decode_command codec rt input_data)) = 0%Z <->
  exists smax decoded result,
    codec_encode codec (repeat Byte.x61 _MAX_ENCODE_INPUT_LENGTH) = Ok smax
    /\ length input_data <= length smax
    /\ codec_decode codec input_data = Ok decoded
    /\ utf8_decode decoded = Some result
    /\ console_accepts rt result = true
    /\ printed (fst (decode_command codec rt input_data)) = [result].
Proof.
  destruct (codec_encode codec (repeat Byte.x61 _MAX_ENCODE_INPUT_LENGTH))
    as [smax|e] eqn:Hmax.
  2:{ rewrite (decode_command_no_bound codec rt e input_data Hmax).
      split; [discriminate | intros (s & d & r & H & _); discriminate H]. }
  destruct (Nat.ltb_spec (length smax) (length input_data)) as [Hlong|Hfit].
  - rewrite (decode_command_too_long codec rt smax input_data Hmax Hlong).
    split.
    + destruct (console_accepts rt _); discriminate.
    + intros (s & d & r & [= <-] & Hlen & _). lia.
  - rewrite (decode_command_run codec rt smax input_data Hmax Hfit). cbn [bind].
    destruct (codec_decode codec input_data) as [decoded|e] eqn:Hd.
    + destruct (utf8_decode decoded) as [result|] eqn:Hu.
      * destruct (console_accepts rt result) eqn:Hc.
        { split; [intros _|reflexivity]. exists smax, decoded, result.
          split; [reflexivity|]. split; [exact Hfit|]. split; [reflexivity|].
          split; [exact Hu|]. split; [exact Hc | reflexivity]. }
        { pose proof (report_status rt (lit "Error: Cannot display decoded data in current console encoding")) as Hs.
          destruct (bind (print rt _) _) as [tr o]. cbn [snd] in *.
          split; [rewrite Hs; discriminate|].
          intros (s & d & r & _ & _ & [= <-] & Hu' & Hc' & _). congruence. }
      * pose proof (report_status rt (lit "Error: Decoded data is not valid UTF-8")) as Hs.
        destruct (bind (print rt _) _) as [tr o]. cbn [snd] in *.
        split; [rewrite Hs; discriminate|].
        intros (s & d & r & _ & _ & [= <-] & Hu' & _). congruence.
    + pose proof (report_status rt (lit "Error: " ++ error_text codec e)) as Hs.
      destruct (bind (print rt _) _) as [tr o]. cbn [snd] in *.
      split; [rewrite Hs; discriminate|].
      intros (s & d & r & _ & _ & H & _). discriminate H.
Qed.

(** * Runs that no exception escapes *)

Lemma bind_no_escape_l (A B : Type) (m : io A) (k : A -> io B) :
  (forall e, snd (bind m k) <> Raised e) -> forall e, snd m <> Raised e.
Proof.
  intros H e E. destruct m as [tr o]. cbn [snd] in E. subst o.
  exact (H e eq_refl).
Qed.

Lemma calls_then (tr : list event) (m : io unit) :
  bind (tr, Returned tt) (fun _ => m) = (tr ++ fst m, snd m).
Proof. destruct m as [tr' o]. reflexivity. Qed.

Lemma printed_app tr tr' : printed (tr ++ tr') = printed tr ++ printed tr'.
Proof. apply flat_map_app. Qed.

Lemma fails_after_calls (tr : list event) (m : io unit) :
  printed tr = [] -> fails_with_one_line m ->
  fails_with_one_line (tr ++ fst m, snd m).
Proof.
  intros Htr (msg & Hp & Hl & Ho). exists msg. cbn [fst snd].
  rewrite printed_app, Htr. split; [exact Hp|]. split; [exact Hl | exact Ho].
Qed.

Section NoEscape.
Variable codec : Codec.
Variable rt : Runtime.
Hypothesis Herr : forall e, line_count (error_text codec e) = 0.
Hypothesis Huni : forall t, line_count (unicode_error_text rt t) = 0.

(** A [print] followed by more code: when no exception comes out, the console
    took the text and the rest ran. *)
Lemma print_bind_no_escape (B : Type) t (k : unit -> io B) :
  (forall e, snd (bind (print rt t) k) <> Raised e) ->
  (forall e, snd (k tt) <> Raised e)
  /\ bind (print rt t) k = (Output t :: fst (k tt), snd (k tt)).
Proof.
  unfold print. destruct (console_accepts rt t).
  - cbn [bind]. destruct (k tt) as [tr o]. cbn [fst snd app].
    intros H. split; [exact H | reflexivity].
  - intros H. contradiction (H _ eq_refl).
Qed.

Lemma print_no_escape t :
  (forall e, snd (print rt t) <> Raised e) ->
  print rt t = ([Output t], Returned tt).
Proof.
  unfold print. destruct (console_accepts rt t); [reflexivity|].
  intros H. contradiction (H _ eq_refl).
Qed.

Lemma report_one_line msg :
  line_count msg = 0 ->
  (forall e, snd (bind (print rt (lit "Error: " ++ msg))
                    (fun _ => @sys_exit unit 1%Z)) <> Raised e) ->
  fails_with_one_line (bind (print rt (lit "Error: " ++ msg))
                         (fun _ => sys_exit 1%Z)).
Proof.
  intros Hl H. apply print_bind_no_escape in H as [_ E]. rewrite E.
  exists msg. split; [reflexivity|]. split; [exact Hl | reflexivity].
Qed.

Lemma length_report_one_line a b :
  (forall e, snd (bind (print rt (length_error a b))
                    (fun _ => @sys_exit unit 1%Z)) <> Raised e) ->
  fails_with_one_line (bind (print rt (length_error a b)) (fun _ => sys_exit 1%Z)).
Proof.
  destruct (length_error_one_line a b) as (msg & E & Hl). rewrite E.
  apply report_one_line, Hl.
Qed.

Lemma print_usage_no_escape :
  (forall e, snd (print_usage codec rt) <> Raised e) ->
  exists (smax : str) (tr : list event),
    codec_encode codec (repeat Byte.x61 _MAX_ENCODE_INPUT_LENGTH) = Ok smax
    /\ print_usage codec rt = (tr, Returned tt)
    /\ printed tr = usage_lines (length smax).
Proof.
  unfold print_usage. intros H.
  do 10 (apply print_bind_no_escape in H as [H E]; rewrite E; clear E;
         cbv beta in H |- *).
  unfold _get_max_decode_input_length, Base58_encode in H |- *.
  destruct (codec_encode codec (repeat Byte.x61 _MAX_ENCODE_INPUT_LENGTH))
    as [smax|e0]; [|contradiction (H _ eq_refl)].
  cbn [bind ret app] in H |- *.
  rewrite print_no_escape.
  - exists smax. eexists. split; [reflexivity|]. split; reflexivity.
  - intros e E. apply (H e). destruct (print rt _) as [tr o].
    cbn [snd] in E |- *. exact E.
Qed.

Lemma encode_command_no_escape input_data :
  (forall e, snd (encode_command codec rt input_data) <> Raised e) ->
  fails_with_one_line (encode_command codec rt input_data)
  \/ exists result, succeeds_printing (encode_command codec rt input_data) result.
Proof.
  destruct (Nat.ltb_spec _MAX_ENCODE_INPUT_LENGTH (length input_data)) as [Hlong|Hfit].
  - unfold encode_command. rewrite (proj2 (Nat.ltb_lt _ _) Hlong), bind_exit.
    intros H. left. apply length_report_one_line, H.
  - rewrite (encode_command_run codec rt input_data Hfit).
    destruct (utf8_encode input_data) as [data|].
    + rewrite calls_then. cbn [snd].
      destruct (codec_encode codec data) as [encoded|e0].
      * destruct (console_accepts rt encoded).
        { intros _. right. exists encoded. split; reflexivity. }
        { intros H. left. apply fails_after_calls; [reflexivity|].
          apply (report_one_line (lit "Cannot encode input as UTF-8: "
                                    ++ unicode_error_text rt encoded)); [|exact H].
          rewrite line_count_app, Huni. reflexivity. }
      * intros H. left. apply fails_after_calls; [reflexivity|].
        apply report_one_line; [apply Herr | exact H].
    + intros H. left.
      apply (report_one_line (lit "Cannot encode input as UTF-8: "
                                ++ unicode_error_text rt input_data)); [|exact H].
      rewrite line_count_app, Huni. reflexivity.
Qed.

Lemma decode_command_no_escape input_data :
  (forall e, snd (decode_command codec rt input_data) <> Raised e) ->
  fails_with_one_line (decode_command codec rt input_data)
  \/ exists result, succeeds_printing (decode_command codec rt input_data) result.
Proof.
  destruct (codec_encode codec (repeat Byte.x61 _MAX_ENCODE_INPUT_LENGTH))
    as [smax|e0] eqn:Hmax.
  2:{ rewrite (decode_command_no_bound codec rt e0 input_data Hmax).
      intros H. contradiction (H _ eq_refl). }
  destruct (Nat.ltb_spec (length smax) (length input_data)) as [Hlong|Hfit].
  - rewrite (decode_command_too_long codec rt smax input_data Hmax Hlong).
    destruct (length_error_one_line (length input_data) (length smax))
      as (msg & E & Hl).
    destruct (console_accepts rt _); [|intros H; contradiction (H _ eq_refl)].
    intros _. left. exists msg. cbn [fst snd printed flat_map app].
    rewrite E. split; [reflexivity|]. split; [exact Hl | reflexivity].
  - rewrite (decode_command_run codec rt smax input_data Hmax Hfit).
    rewrite calls_then. cbn [snd].
    destruct (codec_decode codec input_data) as [decoded|e0].
    + destruct (utf8_decode decoded) as [result|].
      * destruct (console_accepts rt result).
        { intros _. right. exists result. split; reflexivity. }
        { intros H. left. apply fails_after_calls; [reflexivity|].
          apply (report_one_line
                   (lit "Cannot display decoded data in current console encoding"));
            [reflexivity | exact H]. }
      * intros H. left. apply fails_after_calls; [reflexivity|].
        apply (report_one_line (lit "Decoded data is not valid UTF-8"));
          [reflexivity | exact H].
    + intros H. left. apply fails_after_calls; [reflexivity|].
      apply report_one_line; [apply Herr | exact H].
Qed.

Lemma main_missing_no_escape (argv : list str) :
  length argv < 3 ->
  (forall e, snd (main codec rt argv) <> Raised e) ->
  exists n, printed (fst (main codec rt argv)) = usage_lines n
            /\ snd (main codec rt argv) = Exited 1%Z.
Proof.
  intros Hlen. unfold main. rewrite (proj2 (Nat.ltb_lt _ _) Hlen), bind_exit.
  intros H.
  destruct (print_usage_no_escape (bind_no_escape_l _ _ _ _ H))
    as (smax & tr & _ & E & Hp).
  rewrite E. cbn [bind sys_exit fst snd]. rewrite app_nil_r.
  exists (length smax). split; [exact Hp | reflexivity].
Qed.

Lemma main_unknown_no_escape (argv : list str) :
  3 <= length argv ->
  lower rt (nth 1 argv []) <> lit "encode" ->
  lower rt (nth 1 argv []) <> lit "decode" ->
  (forall e, snd (main codec rt argv) <> Raised e) ->
  exists n,
    printed (fst (main codec rt argv))
    = (lit "Error: Unknown command '" ++ lower rt (nth 1 argv []) ++ lit "'")
        :: usage_lines n
    /\ snd (main codec rt argv) = Exited 1%Z.
Proof.
  intros Hlen He Hd. rewrite (main_dispatch codec rt argv Hlen). cbv zeta.
  destruct (str_eqb _ (lit "encode")) eqn:E1; [apply str_eqb_eq in E1; contradiction|].
  destruct (str_eqb _ (lit "decode")) eqn:E2; [apply str_eqb_eq in E2; contradiction|].
  intros H. apply print_bind_no_escape in H as [H E]. rewrite E. clear E.
  destruct (print_usage_no_escape (bind_no_escape_l _ _ _ _ H))
    as (smax & tr & _ & E & Hp).
  rewrite E. cbn [bind sys_exit fst snd printed flat_map app].
  rewrite app_nil_r. fold (printed tr). rewrite Hp.
  exists (length smax). split; reflexivity.
Qed.

Lemma main_command_no_escape (argv : list str) :
  3 <= length argv ->
  lower rt (nth 1 argv []) = lit "encode" \/ lower rt (nth 1 argv []) = lit "decode" ->
  (forall e, snd (main codec rt argv) <> Raised e) ->
  fails_with_one_line (main codec rt argv)
  \/ exists result, succeeds_printing (main codec rt argv) result.
Proof.
  intros Hlen Hcmd. rewrite (main_dispatch codec rt argv Hlen). cbv zeta.
  destruct (str_eqb _ (lit "encode")) eqn:E1.
  - apply encode_command_no_escape.
  - destruct Hcmd as [Hcmd|Hcmd]; [apply str_eqb_eq in Hcmd; congruence|].
    rewrite (proj2 (str_eqb_eq _ _) Hcmd). apply decode_command_no_escape.
Qed.

End NoEscape.

Lemma spec_main_decode_invalid :
  main spec_codec utf8_console
    [lit "splurge_base58"; lit "Decode"; lit "invalid!@#"]
  = ([Call_encode (repeat Byte.x61 _MAX_ENCODE_INPUT_LENGTH);
      Call_decode (lit "invalid!@#");
      Output (lit "Error: Invalid character (code point 108) at position 4")],
     Exited 1%Z).
Proof.
  rewrite main_dispatch by (cbn [length]; lia). cbv zeta.
  change (lower utf8_console
            (nth 1 [lit "splurge_base58"; lit "Decode"; lit "invalid!@#"] []))
    with (lit "decode").
  change (str_eqb (lit "decode") (lit "encode")) with false.
  change (str_eqb (lit "decode") (lit "decode")) with true.
  cbv iota. cbn [nth].
  rewrite (decode_command_run spec_codec utf8_console _ _ spec_codec_max)
    by (rewrite (proj2 spec_max_encoding); cbn [length lit]; vm_compute; lia).
  change (codec_decode spec_codec (lit "invalid!@#"))
    with (Base58.decode (lit "invalid!@#")).
  rewrite (proj1 decode_rejects_invalid). reflexivity.
Qed.

(** C2, as the command line has it.  Of a run that no exception escapes (the
    console took every text the run printed and the bound computation
    succeeded), with error messages free of line breaks: a run lacking
    arguments prints the 11 lines of the usage text and ends with status 1; an
    unknown command prints one error line followed by those 11 lines and ends
    with status 1; an [encode] or [decode] command either fails with exactly
    one line, starting with ["Error: "], and status 1, or succeeds with status
    0 after a single [print] of its result. *)
Theorem cli_output_lines (codec : Codec) (rt : Runtime) (argv : list str) :
  (forall e, snd (main codec rt argv) <> Raised e) ->
  (forall e, line_count (error_text codec e) = 0) ->
  (forall t, line_count (unicode_error_text rt t) = 0) ->
  let r := main codec rt argv in
  let command := lower rt (nth 1 argv []) in
  let lines := line_count (stdout (fst r)) in
  let status := exit_status (snd r) in
  (length argv < 3 -> lines = 11 /\ status = 1%Z)
  /\ (3 <= length argv -> command <> lit "encode" -> command <> lit "decode" ->
      lines = 12 + line_count command /\ status = 1%Z)
  /\ (3 <= length argv -> command = lit "encode" \/ command = lit "decode" ->
      (status = 1%Z /\ lines = 1
       /\ exists msg, printed (fst r) = [lit "Error: " ++ msg])
      \/ (status = 0%Z
          /\ exists result, printed (fst r) = [result]
                            /\ lines = 1 + line_count result)).
Proof.
  intros Hrun Herr Huni. cbv zeta. split; [|split].
  - intros Hlen.
    destruct (main_missing_no_escape codec rt argv Hlen Hrun) as (n & Hp & Ho).
    rewrite Ho. split; [|reflexivity].
    unfold stdout. rewrite Hp. apply usage_lines_count.
  - intros Hlen He Hd.
    destruct (main_unknown_no_escape codec rt argv Hlen He Hd Hrun)
      as (n & Hp & Ho).
    rewrite Ho. split; [|reflexivity].
    unfold stdout. rewrite Hp. cbn [flat_map].
    rewrite line_count_app, usage_lines_count, !line_count_app.
    change (line_count [NEWLINE]) with 1.
    change (line_count (lit "Error: Unknown command '")) with 0.
    change (line_count (lit "'")) with 0. lia.
  - intros Hlen Hcmd.
    destruct (main_command_no_escape codec rt Herr Huni argv Hlen Hcmd Hrun)
      as [(msg & Hp & Hl & Ho)|(result & Hp & Ho)].
    + left. rewrite Ho. split; [reflexivity|]. split; [|exists msg; exact Hp].
      rewrite (single_print_lines _ _ Hp), line_count_app, Hl. reflexivity.
    + right. rewrite Ho. split; [reflexivity|]. exists result.
      split; [exact Hp | apply single_print_lines, Hp].
Qed.

Lemma cli_output_lines_witness :
  let r := main spec_codec utf8_console
             [lit "splurge_base58"; lit "Decode"; lit "invalid!@#"] in
  let command := lower utf8_console
                   (nth 1 [lit "splurge_base58"; lit "Decode"; lit "invalid!@#"] []) in
  let lines := line_count (stdout (fst r)) in
  let status := exit_status (snd r) in
  (length [lit "splurge_base58"; lit "Decode"; lit "invalid!@#"] < 3 ->
   lines = 11 /\ status = 1%Z)
  /\ (3 <= length [lit "splurge_base58"; lit "Decode"; lit "invalid!@#"] ->
      command <> lit "encode" -> command <> lit "decode" ->
      lines = 12 + line_count command /\ status = 1%Z)
  /\ (3 <= length [lit "splurge_base58"; lit "Decode"; lit "invalid!@#"] ->
      command = lit "encode" \/ command = lit "decode" ->
      (status = 1%Z /\ lines = 1
       /\ exists msg, printed (fst r) = [lit "Error: " ++ msg])
      \/ (status = 0%Z
          /\ exists result, printed (fst r) = [result]
                            /\ lines = 1 + line_count result)).
Proof.
  apply (cli_output_lines spec_codec utf8_console
           [lit "splurge_base58"; lit "Decode"; lit "invalid!@#"]).
  - intros e. rewrite spec_main_decode_invalid. discriminate.
  - exact spec_error_text_one_line.
  - intros t. reflexivity.
Defined.

(** * Empty input *)

Lemma spec_decode_command_empty :
  decode_command spec_codec utf8_console []
  = ([Call_encode (repeat Byte.x61 _MAX_ENCODE_INPUT_LENGTH); Call_decode [];
      Output (lit "Error: " ++ error_text spec_codec EmptyInput)],
     Exited 1%Z).
Proof.
  rewrite (decode_command_run spec_codec utf8_console _ _ spec_codec_max)
    by apply Nat.le_0_l.
  reflexivity.
Qed.

(** C8, as the codec and the command line have it.  Empty input is refused:
    [encode] of the empty byte sequence and [decode] of the empty string each
    fail; when the codec refuses the empty input, [encode_command] and
    [decode_command] report it with one ["Error: "] text and status 1, as
    [test_cli.py] requires; and a codec that answered the empty input, as an
    identity would, makes both commands end with status 0. *)
Theorem empty_input_rejected (codec : Codec) (rt : Runtime) (smax : str) :
  Base58.encode [] = Err EmptyInput
  /\ Base58.decode [] = Err EmptyInput
  /\ (forall e,
         codec_encode codec [] = Err e ->
         console_accepts rt (lit "Error: " ++ error_text codec e) = true ->
         encode_command codec rt []
         = ([Call_encode []; Output (lit "Error: " ++ error_text codec e)],
            Exited 1%Z))
  /\ (forall e,
         codec_encode codec (repeat Byte.x61 _MAX_ENCODE_INPUT_LENGTH) = Ok smax ->
         codec_decode codec [] = Err e ->
         console_accepts rt (lit "Error: " ++ error_text codec e) = true ->
         decode_command codec rt []
         = ([Call_encode (repeat Byte.x61 _MAX_ENCODE_INPUT_LENGTH); Call_decode [];
             Output (lit "Error: " ++ error_text codec e)],
            Exited 1%Z))
  /\ (forall s,
         codec_encode codec [] = Ok s ->
         console_accepts rt s = true ->
         encode_command codec rt [] = ([Call_encode []; Output s], Returned tt)
         /\ exit_status (snd (encode_command codec rt [])) = 0%Z)
  /\ (forall b s,
         codec_encode codec (repeat Byte.x61 _MAX_ENCODE_INPUT_LENGTH) = Ok smax ->
         codec_decode codec [] = Ok b ->
         utf8_decode b = Some s ->
         console_accepts rt s = true ->
         decode_command codec rt []
         = ([Call_encode (repeat Byte.x61 _MAX_ENCODE_INPUT_LENGTH); Call_decode [];
             Output s], Returned tt)
         /\ exit_status (snd (decode_command codec rt [])) = 0%Z).
Proof.
  split; [reflexivity|]. split; [reflexivity|].
  split; [|split; [|split]].
  - intros e He Hc.
    rewrite (encode_command_run codec rt []) by apply Nat.le_0_l.
    cbn [utf8_encode]. rewrite He, report_run, Hc. reflexivity.
  - intros e Hmax Hd Hc.
    rewrite (decode_command_run codec rt smax [] Hmax) by apply Nat.le_0_l.
    rewrite Hd, report_run, Hc. reflexivity.
  - intros s He Hc.
    rewrite (encode_command_run codec rt []) by apply Nat.le_0_l.
    cbn [utf8_encode]. rewrite He, Hc. split; reflexivity.
  - intros b s Hmax Hd Hu Hc.
    rewrite (decode_command_run codec rt smax [] Hmax) by apply Nat.le_0_l.
    rewrite Hd, Hu, Hc. split; reflexivity.
Qed.

Lemma empty_input_rejected_witness :
  encode_command spec_codec utf8_console []
  = ([Call_encode []; Output (lit "Error: " ++ error_text spec_codec EmptyInput)],
     Exited 1%Z)
  /\ decode_command spec_codec utf8_console []
     = ([Call_encode (repeat Byte.x61 _MAX_ENCODE_INPUT_LENGTH); Call_decode [];
         Output (lit "Error: " ++ error_text spec_codec EmptyInput)],
        Exited 1%Z).
Proof.
  destruct (empty_input_rejected spec_codec utf8_console
              (Base58.encode_digits (repeat Byte.x61 _MAX_ENCODE_INPUT_LENGTH)))
    as (_ & _ & He & Hd & _).
  split.
  - apply He; reflexivity.
  - apply Hd; [exact spec_codec_max | reflexivity | reflexivity].
Defined.

(** C8 as stated fails: the codec refuses the empty byte sequence and the
    empty string, so neither call is an identity; the command line ends with
    status 1 on the empty argument. *)
Lemma empty_identity_counterexample :
  Base58.encode [] = Err EmptyInput
  /\ Base58.encode [] <> Ok []
  /\ Base58.decode [] = Err EmptyInput
  /\ Base58.decode [] <> Ok []
  /\ exit_status (snd (encode_command spec_codec utf8_console [])) = 1%Z
  /\ exit_status (snd (decode_command spec_codec utf8_console [])) = 1%Z.
Proof.
  split; [reflexivity|]. split; [discriminate|].
  split; [reflexivity|]. split; [discriminate|].
  split; [reflexivity|]. rewrite spec_decode_command_empty. reflexivity.
Qed.

(** * UTF-8: decoding undoes encoding *)

Lemma lor_shiftl_add y k x :
  (x < 2 ^ k)%N -> N.lor (N.shiftl y k) x = (y * 2 ^ k + x)%N.
Proof.
  intros Hx. rewrite N.shiftl_mul_pow2.
  assert (Hd : N.land (y * 2 ^ k) x = 0%N).
  { apply N.bits_inj. intros n. rewrite N.land_spec, N.bits_0.
    destruct (N.lt_ge_cases n k) as [Hn|Hn].
    - rewrite N.mul_pow2_bits_low by exact Hn. reflexivity.
    - rewrite <- (N.mod_small x (2 ^ k)) by exact Hx.
      rewrite N.mod_pow2_bits_high by exact Hn. apply andb_false_r. }
  rewrite <- N.lxor_lor by exact Hd. symmetry. apply N.add_nocarry_lxor. exact Hd.
Qed.

Lemma below_forallb (P : N -> bool) (n : nat) :
  forallb P (map N.of_nat (seq 0 n)) = true ->
  forall x, (x < N.of_nat n)%N -> P x = true.
Proof.
  intros H x Hx. rewrite forallb_forall in H. apply H.
  rewrite <- (N2Nat.id x). apply in_map, in_seq. lia.
Qed.

Lemma to_N_byte_of_N n : (n < 256)%N -> Byte.to_N (byte_of_N n) = n.
Proof.
  intros Hn. unfold byte_of_N. rewrite N.mod_small by exact Hn.
  destruct (Byte.of_N n) as [b|] eqn:E.
  - apply Byte.to_of_N, E.
  - apply Byte.of_N_None_iff in E. lia.
Qed.

(** What the decoder reads off a continuation byte and off the three kinds of
    leading byte. *)
Lemma tail_byte_facts x :
  (x < 64)%N ->
  let b := Byte.to_N (byte_of_N (N.lor 0x80 x)) in
  is_continuation b = true /\ payload b = x.
Proof.
  intros Hx b.
  pose proof (below_forallb
                (fun x => let b := Byte.to_N (byte_of_N (N.lor 0x80 x)) in
                          is_continuation b && (payload b =? x)%N) 64 eq_refl x Hx) as H.
  cbv zeta in H. apply andb_true_iff in H as [H1 H2].
  split; [exact H1 | apply N.eqb_eq, H2].
Qed.

Lemma lead2_facts y :
  (y < 32)%N ->
  let b := Byte.to_N (byte_of_N (N.lor 0xC0 y)) in
  (b <? 0x80)%N = false /\ (N.land b 0xE0 =? 0xC0)%N = true /\ N.land b 0x1F = y.
Proof.
  intros Hy b.
  pose proof (below_forallb
                (fun y => let b := Byte.to_N (byte_of_N (N.lor 0xC0 y)) in
                          negb (b <? 0x80)%N && (N.land b 0xE0 =? 0xC0)%N
                          && (N.land b 0x1F =? y)%N) 32 eq_refl y Hy) as H.
  cbv zeta in H. apply andb_true_iff in H as [H H3].
  apply andb_true_iff in H as [H1 H2].
  split; [apply negb_true_iff, H1|]. split; [exact H2 | apply N.eqb_eq, H3].
Qed.

Lemma lead3_facts y :
  (y < 16)%N ->
  let b := Byte.to_N (byte_of_N (N.lor 0xE0 y)) in
  (b <? 0x80)%N = false /\ (N.land b 0xE0 =? 0xC0)%N = false
  /\ (N.land b 0xF0 =? 0xE0)%N = true /\ N.land b 0x0F = y.
Proof.
  intros Hy b.
  pose proof (below_forallb
                (fun y => let b := Byte.to_N (byte_of_N (N.lor 0xE0 y)) in
                          negb (b <? 0x80)%N && negb (N.land b 0xE0 =? 0xC0)%N
                          && (N.land b 0xF0 =? 0xE0)%N
                          && (N.land b 0x0F =? y)%N) 16 eq_refl y Hy) as H.
  cbv zeta in H. apply andb_true_iff in H as [H H4].
  apply andb_true_iff in H as [H H3]. apply andb_true_iff in H as [H1 H2].
  split; [apply negb_true_iff, H1|]. split; [apply negb_true_iff, H2|].
  split; [exact H3 | apply N.eqb_eq, H4].
Qed.

Lemma lead4_facts y :
  (y < 8)%N ->
  let b := Byte.to_N (byte_of_N (N.lor 0xF0 y)) in
  (b <? 0x80)%N = false /\ (N.land b 0xE0 =? 0xC0)%N = false
  /\ (N.land b 0xF0 =? 0xE0)%N = false
  /\ (N.land b 0xF8 =? 0xF0)%N = true /\ N.land b 0x07 = y.
Proof.
  intros Hy b.
  pose proof (below_forallb
                (fun y => let b := Byte.to_N (byte_of_N (N.lor 0xF0 y)) in
                          negb (b <? 0x80)%N && negb (N.land b 0xE0 =? 0xC0)%N
                          && negb (N.land b 0xF0 =? 0xE0)%N
                          && (N.land b 0xF8 =? 0xF0)%N
                          && (N.land b 0x07 =? y)%N) 8 eq_refl y Hy) as H.
  cbv zeta in H. apply andb_true_iff in H as [H H5].
  apply andb_true_iff in H as [H H4]. apply andb_true_iff in H as [H H3].
  apply andb_true_iff in H as [H1 H2].
  split; [apply negb_true_iff, H1|]. split; [apply negb_true_iff, H2|].
  split; [apply negb_true_iff, H3|]. split; [exact H4 | apply N.eqb_eq, H5].
Qed.

(** The six bits a continuation byte carries. *)
Lemma sextet c k :
  N.land (N.shiftr c (6 * k)) 0x3F = ((c / 2 ^ (6 * k)) mod 64)%N
  /\ (N.land (N.shiftr c (6 * k)) 0x3F < 64)%N.
Proof.
  rewrite N.shiftr_div_pow2. change 0x3F%N with (N.ones 6).
  rewrite N.land_ones. change (2 ^ 6)%N with 64%N.
  split; [reflexivity | apply N.mod_lt; discriminate].
Qed.

Lemma utf8_tail_read c k :
  let b := Byte.to_N (utf8_tail c k) in
  is_continuation b = true /\ payload b = ((c / 2 ^ (6 * k)) mod 64)%N.
Proof.
  unfold utf8_tail. destruct (sextet c k) as [E Hlt].
  destruct (tail_byte_facts _ Hlt) as [H1 H2]. cbv zeta. rewrite H1, H2.
  split; [reflexivity | exact E].
Qed.

Lemma utf8_tail_0 c :
  is_continuation (Byte.to_N (utf8_tail c 0)) = true
  /\ payload (Byte.to_N (utf8_tail c 0)) = (c mod 64)%N.
Proof.
  destruct (utf8_tail_read c 0) as [H1 H2]. split; [exact H1|].
  rewrite H2. change (2 ^ (6 * 0))%N with 1%N. rewrite N.div_1_r. reflexivity.
Qed.

Lemma utf8_tail_1 c :
  is_continuation (Byte.to_N (utf8_tail c 1)) = true
  /\ payload (Byte.to_N (utf8_tail c 1)) = ((c / 64) mod 64)%N.
Proof. exact (utf8_tail_read c 1). Qed.

Lemma utf8_tail_2 c :
  is_continuation (Byte.to_N (utf8_tail c 2)) = true
  /\ payload (Byte.to_N (utf8_tail c 2)) = ((c / 4096) mod 64)%N.
Proof. exact (utf8_tail_read c 2). Qed.

Lemma recompose2 c :
  N.lor (N.shiftl (N.shiftr c 6) 6) (c mod 64) = c.
Proof.
  rewrite lor_shiftl_add by (apply N.mod_lt; discriminate).
  rewrite N.shiftr_div_pow2. change (2 ^ 6)%N with 64%N.
  pose proof (N.div_mod' c 64). lia.
Qed.

Lemma recompose3 c :
  N.lor (N.shiftl (N.shiftr c 12) 12)
    (N.lor (N.shiftl ((c / 64) mod 64) 6) (c mod 64)) = c.
Proof.
  rewrite (lor_shiftl_add _ 6) by (apply N.mod_lt; discriminate).
  change (2 ^ 6)%N with 64%N.
  pose proof (N.mod_lt c 64 ltac:(discriminate)).
  pose proof (N.mod_lt (c / 64) 64 ltac:(discriminate)).
  rewrite lor_shiftl_add by (change (2 ^ 12)%N with 4096%N; lia).
  rewrite N.shiftr_div_pow2. change (2 ^ 12)%N with 4096%N.
  pose proof (N.div_mod' c 64) as E1. pose proof (N.div_mod' (c / 64) 64) as E2.
  rewrite N.Div0.div_div in E2. change (64 * 64)%N with 4096%N in E2. lia.
Qed.

Lemma recompose4 c :
  N.lor (N.shiftl (N.shiftr c 18) 18)
    (N.lor (N.shiftl ((c / 4096) mod 64) 12)
       (N.lor (N.shiftl ((c / 64) mod 64) 6) (c mod 64))) = c.
Proof.
  rewrite (lor_shiftl_add _ 6) by (apply N.mod_lt; discriminate).
  change (2 ^ 6)%N with 64%N.
  pose proof (N.mod_lt c 64 ltac:(discriminate)).
  pose proof (N.mod_lt (c / 64) 64 ltac:(discriminate)).
  pose proof (N.mod_lt (c / 4096) 64 ltac:(discriminate)).
  rewrite (lor_shiftl_add _ 12) by (change (2 ^ 12)%N with 4096%N; lia).
  change (2 ^ 12)%N with 4096%N.
  rewrite lor_shiftl_add by (change (2 ^ 18)%N with 262144%N; lia).
  rewrite N.shiftr_div_pow2. change (2 ^ 18)%N with 262144%N.
  pose proof (N.div_mod' c 64) as E1. pose proof (N.div_mod' (c / 64) 64) as E2.
  pose proof (N.div_mod' (c / 4096) 64) as E3.
  rewrite N.Div0.div_div in E2. change (64 * 64)%N with 4096%N in E2.
  rewrite N.Div0.div_div in E3. change (4096 * 64)%N with 262144%N in E3. lia.
Qed.

Lemma shiftr_below c k n :
  (c < n * 2 ^ k)%N -> (N.shiftr c k < n)%N.
Proof.
  intros H. rewrite N.shiftr_div_pow2. apply N.Div0.div_lt_upper_bound.
  rewrite N.mul_comm. exact H.
Qed.

Lemma utf8_decode_values_cons b0 r0 :
  utf8_decode_values (b0 :: r0)
  = if (b0 <? 0x80)%N then option_map (cons b0) (utf8_decode_values r0)
    else if (N.land b0 0xE0 =? 0xC0)%N then
      match r0 with
      | b1 :: r1 =>
          let c := N.lor (N.shiftl (N.land b0 0x1F) 6) (payload b1) in
          if is_continuation b1 && (0x80 <=? c)%N
          then option_map (cons c) (utf8_decode_values r1)
          else None
      | _ => None
      end
    else if (N.land b0 0xF0 =? 0xE0)%N then
      match r0 with
      | b1 :: b2 :: r2 =>
          let c := N.lor (N.shiftl (N.land b0 0x0F) 12)
                     (N.lor (N.shiftl (payload b1) 6) (payload b2)) in
          if is_continuation b1 && is_continuation b2
             && (0x800 <=? c)%N && negb (is_surrogate c)
          then option_map (cons c) (utf8_decode_values r2)
          else None
      | _ => None
      end
    else if (N.land b0 0xF8 =? 0xF0)%N then
      match r0 with
      | b1 :: b2 :: b3 :: r3 =>
          let c := N.lor (N.shiftl (N.land b0 0x07) 18)
                     (N.lor (N.shiftl (payload b1) 12)
                        (N.lor (N.shiftl (payload b2) 6) (payload b3))) in
          if is_continuation b1 && is_continuation b2 && is_continuation b3
             && (0x10000 <=? c)%N && (c <? 0x110000)%N
          then option_map (cons c) (utf8_decode_values r3)
          else None
      | _ => None
      end
    else None.
Proof. reflexivity. Qed.

Lemma utf8_decode_1 c rest :
  (c < 0x80)%N ->
  utf8_decode_values (Byte.to_N (byte_of_N c) :: rest)
  = option_map (cons c) (utf8_decode_values rest).
Proof.
  intros H1. rewrite utf8_decode_values_cons, to_N_byte_of_N by lia.
  rewrite (proj2 (N.ltb_lt _ _) H1). reflexivity.
Qed.

Lemma utf8_decode_2 c rest :
  (0x80 <= c)%N -> (c < 0x800)%N ->
  utf8_decode_values
    (Byte.to_N (byte_of_N (N.lor 0xC0 (N.shiftr c 6)))
       :: Byte.to_N (utf8_tail c 0) :: rest)
  = option_map (cons c) (utf8_decode_values rest).
Proof.
  intros H1 H2.
  assert (Hy : (N.shiftr c 6 < 32)%N) by (apply shiftr_below; exact H2).
  destruct (lead2_facts _ Hy) as (L1 & L2 & L3). cbv zeta in L1, L2, L3.
  destruct (utf8_tail_0 c) as [T1 T2].
  rewrite utf8_decode_values_cons, L1, L2. cbv beta iota zeta.
  rewrite T1, L3, T2, recompose2, (proj2 (N.leb_le _ _) H1). reflexivity.
Qed.

Lemma utf8_decode_3 c rest :
  (0x800 <= c)%N -> (c < 0x10000)%N -> is_surrogate c = false ->
  utf8_decode_values
    (Byte.to_N (byte_of_N (N.lor 0xE0 (N.shiftr c 12)))
       :: Byte.to_N (utf8_tail c 1) :: Byte.to_N (utf8_tail c 0) :: rest)
  = option_map (cons c) (utf8_decode_values rest).
Proof.
  intros H2 H3 Hs.
  assert (Hy : (N.shiftr c 12 < 16)%N) by (apply shiftr_below; exact H3).
  destruct (lead3_facts _ Hy) as (L1 & L2 & L3 & L4). cbv zeta in L1, L2, L3, L4.
  destruct (utf8_tail_0 c) as [T1 T2]. destruct (utf8_tail_1 c) as [U1 U2].
  rewrite utf8_decode_values_cons, L1, L2, L3. cbv beta iota zeta.
  rewrite T1, U1, L4, T2, U2, recompose3, Hs, (proj2 (N.leb_le _ _) H2).
  reflexivity.
Qed.

Lemma utf8_decode_4 c rest :
  (0x10000 <= c)%N -> (c < 0x110000)%N ->
  utf8_decode_values
    (Byte.to_N (byte_of_N (N.lor 0xF0 (N.shiftr c 18)))
       :: Byte.to_N (utf8_tail c 2) :: Byte.to_N (utf8_tail c 1)
       :: Byte.to_N (utf8_tail c 0) :: rest)
  = option_map (cons c) (utf8_decode_values rest).
Proof.
  intros H3 H4.
  assert (Hy : (N.shiftr c 18 < 8)%N).
  { apply shiftr_below. change (8 * 2 ^ 18)%N with 0x200000%N. lia. }
  destruct (lead4_facts _ Hy) as (L1 & L2 & L3 & L4 & L5).
  cbv zeta in L1, L2, L3, L4, L5.
  destruct (utf8_tail_0 c) as [T1 T2]. destruct (utf8_tail_1 c) as [U1 U2].
  destruct (utf8_tail_2 c) as [V1 V2].
  rewrite utf8_decode_values_cons, L1, L2, L3, L4. cbv beta iota zeta.
  rewrite T1, U1, V1, L5, T2, U2, V2, recompose4.
  rewrite (proj2 (N.leb_le _ _) H3), (proj2 (N.ltb_lt _ _) H4). reflexivity.
Qed.

Lemma utf8_decode_encode_char c bs rest :
  utf8_encode_char c = Some bs ->
  utf8_decode_values (map Byte.to_N bs ++ rest)
  = option_map (cons c) (utf8_decode_values rest).
Proof.
  unfold utf8_encode_char.
  destruct (N.ltb_spec c 0x80) as [H1|H1].
  { intros E. assert (E' : bs = [byte_of_N c]) by congruence. rewrite E'.
    apply utf8_decode_1, H1. }
  destruct (N.ltb_spec c 0x800) as [H2|H2].
  { intros E.
    assert (E' : bs = [byte_of_N (N.lor 0xC0 (N.shiftr c 6)); utf8_tail c 0])
      by congruence.
    rewrite E'. apply utf8_decode_2; assumption. }
  destruct (N.ltb_spec c 0x10000) as [H3|H3].
  { destruct (is_surrogate c) eqn:Hs; [discriminate|]. intros E.
    assert (E' : bs = [byte_of_N (N.lor 0xE0 (N.shiftr c 12));
                       utf8_tail c 1; utf8_tail c 0]) by congruence.
    rewrite E'. apply utf8_decode_3; assumption. }
  destruct (N.ltb_spec c 0x110000) as [H4|H4]; [|discriminate].
  intros E.
  assert (E' : bs = [byte_of_N (N.lor 0xF0 (N.shiftr c 18));
                     utf8_tail c 2; utf8_tail c 1; utf8_tail c 0]) by congruence.
  rewrite E'. apply utf8_decode_4; assumption.
Qed.

Lemma utf8_decode_encode s :
  forall data, utf8_encode s = Some data -> utf8_decode data = Some s.
Proof.
  unfold utf8_decode.
  induction s as [|c s IH]; intros data; cbn [utf8_encode].
  - intros [= <-]. reflexivity.
  - destruct (utf8_encode_char c) as [bs|] eqn:Ec; [|discriminate].
    destruct (utf8_encode s) as [rest|]; [|discriminate].
    intros [= <-]. rewrite map_app, (utf8_decode_encode_char c bs _ Ec).
    rewrite (IH rest eq_refl). reflexivity.
Qed.

Lemma utf8_encode_char_length c bs :
  utf8_encode_char c = Some bs -> 1 <= length bs <= 4.
Proof.
  assert (H : match utf8_encode_char c with
              | Some l => 1 <= length l <= 4
              | None => True
              end).
  { unfold utf8_encode_char.
    destruct (c <? 0x80)%N; [cbn [length]; lia|].
    destruct (c <? 0x800)%N; [cbn [length]; lia|].
    destruct (c <? 0x10000)%N; [destruct (is_surrogate c); [exact I | cbn [length]; lia]|].
    destruct (c <? 0x110000)%N; [cbn [length]; lia | exact I]. }
  intros E. rewrite E in H. exact H.
Qed.

Lemma utf8_encode_length s :
  forall data, utf8_encode s = Some data ->
               length s <= length data <= 4 * length s.
Proof.
  induction s as [|c s IH]; intros data; cbn [utf8_encode].
  - intros [= <-]. cbn [length]. lia.
  - destruct (utf8_encode_char c) as [bs|] eqn:Ec; [|discriminate].
    destruct (utf8_encode s) as [rest|]; [|discriminate].
    intros [= <-]. apply utf8_encode_char_length in Ec.
    specialize (IH rest eq_refl). rewrite length_app. cbn [length]. lia.
Qed.

Lemma utf8_encode_char_None c :
  utf8_encode_char c = None <-> is_surrogate c = true \/ (0x110000 <= c)%N.
Proof.
  assert (Hsur : is_surrogate c = true -> (0xD800 <= c <= 0xDFFF)%N).
  { unfold is_surrogate. intros H. apply andb_true_iff in H as [Ha Hb].
    apply N.leb_le in Ha, Hb. split; assumption. }
  unfold utf8_encode_char.
  destruct (N.ltb_spec c 0x80) as [L1|L1].
  { split; [discriminate|]. intros [H|H]; [apply Hsur in H|]; lia. }
  destruct (N.ltb_spec c 0x800) as [L2|L2].
  { split; [discriminate|]. intros [H|H]; [apply Hsur in H|]; lia. }
  destruct (N.ltb_spec c 0x10000) as [L3|L3].
  { destruct (is_surrogate c) eqn:Hs.
    - split; [intros _; left; reflexivity | reflexivity].
    - split; [discriminate | intros [H|H]; [discriminate | lia]]. }
  destruct (N.ltb_spec c 0x110000) as [L4|L4].
  - split; [discriminate|]. intros [H|H]; [apply Hsur in H|]; lia.
  - split; [intros _; right; exact L4 | reflexivity].
Qed.

Lemma utf8_encode_None s :
  utf8_encode s = None <-> exists c, In c s /\ utf8_encode_char c = None.
Proof.
  induction s as [|c s IH]; cbn [utf8_encode In].
  - split; [discriminate | intros (c & [] & _)].
  - destruct (utf8_encode_char c) as [bs|] eqn:Ec.
    + destruct (utf8_encode s) as [rest|].
      * split; [discriminate|]. intros (c' & [<-|Hin] & Hc); [congruence|].
        assert (H : Some rest = None)
          by (apply IH; exists c'; split; assumption).
        discriminate H.
      * split; [intros _|reflexivity].
        destruct (proj1 IH eq_refl) as (c' & Hin & Hc). exists c'.
        split; [right; exact Hin | exact Hc].
    + split; [intros _|reflexivity]. exists c. split; [left; reflexivity | exact Ec].
Qed.

(** * More on the two commands *)

Lemma spec_codec_round_trip (b : bytes) :
  b <> [] ->
  length b <= _MAX_ENCODE_INPUT_LENGTH ->
  codec_encode spec_codec b = Ok (Base58.encode_digits b)
  /\ codec_decode spec_codec (Base58.encode_digits b) = Ok b
  /\ length (Base58.encode_digits b) <= 2797.
Proof. exact (spec_round_trip b). Qed.

Lemma spec_decode_5Q : codec_decode spec_codec (lit "5Q") = Ok [Byte.xff].
Proof.
  cbn [codec_decode spec_codec]. rewrite decode_nonempty by discriminate.
  rewrite MAX_DECODE_LENGTH_eq. reflexivity.
Qed.

Lemma spec_decode_command_5Q :
  decode_command spec_codec utf8_console (lit "5Q")
  = ([Call_encode (repeat Byte.x61 _MAX_ENCODE_INPUT_LENGTH);
      Call_decode (lit "5Q");
      Output (lit "Error: Decoded data is not valid UTF-8")], Exited 1%Z).
Proof.
  rewrite (decode_command_run spec_codec utf8_console _ (lit "5Q") spec_codec_max)
    by (rewrite (proj2 spec_max_encoding); cbn [length lit map list_ascii_of_string]; lia).
  rewrite spec_decode_5Q. reflexivity.
Qed.

Lemma main_decodes_only_the_argument_witness :
  In (Call_decode (lit "5Q"))
    (fst (main spec_codec utf8_console [lit "splurge_base58"; lit "DECODE"; lit "5Q"]))
  /\ lower utf8_console (lit "DECODE") = lit "decode".
Proof.
  assert (Hin : In (Call_decode (lit "5Q"))
                  (fst (main spec_codec utf8_console
                          [lit "splurge_base58"; lit "DECODE"; lit "5Q"]))).
  { rewrite (main_dispatch spec_codec utf8_console
               [lit "splurge_base58"; lit "DECODE"; lit "5Q"])
      by (cbn [length]; lia).
    change (In (Call_decode (lit "5Q"))
              (fst (decode_command spec_codec utf8_console (lit "5Q")))).
    rewrite spec_decode_command_5Q. right. left. reflexivity. }
  split; [exact Hin|].
  exact (proj1 (proj2 (main_decodes_only_the_argument spec_codec utf8_console
                         [lit "splurge_base58"; lit "DECODE"; lit "5Q"]
                         (lit "5Q") Hin))).
Defined.

(** X5. A run depends on its arguments only through the lowered second
    argument and the third: the program name, the letter case of the command
    and any further arguments make no difference, and all runs with fewer than
    two arguments behave alike. *)
Theorem main_reads_command_and_input
    (codec : Codec) (rt : Runtime) (argv argv' : list str) :
  (length argv < 3 -> length argv' < 3 ->
   main codec rt argv = main codec rt argv')
  /\ (3 <= length argv -> 3 <= length argv' ->
      lower rt (nth 1 argv []) = lower rt (nth 1 argv' []) ->
      nth 2 argv [] = nth 2 argv' [] ->
      main codec rt argv = main codec rt argv').
Proof.
  split.
  - intros H H'. unfold main.
    rewrite (proj2 (Nat.ltb_lt _ _) H), (proj2 (Nat.ltb_lt _ _) H'), !bind_exit.
    reflexivity.
  - intros H H' Hc Hi.
    rewrite (main_dispatch codec rt argv H), (main_dispatch codec rt argv' H').
    cbv zeta. rewrite Hc, Hi. reflexivity.
Qed.

Lemma main_reads_command_and_input_witness :
  main spec_codec utf8_console
    [lit "splurge_base58"; lit "Encode"; lit "Hello"; lit "ignored"]
  = main spec_codec utf8_console [lit "cli.py"; lit "encode"; lit "Hello"].
Proof.
  apply (main_reads_command_and_input spec_codec utf8_console
           [lit "splurge_base58"; lit "Encode"; lit "Hello"; lit "ignored"]
           [lit "cli.py"; lit "encode"; lit "Hello"]).
  - cbn [length]. lia.
  - cbn [length]. lia.
  - reflexivity.
  - reflexivity.
Defined.

(** X6. An argument holding a surrogate code point (what [sys.argv] holds for
    undecodable bytes) never reaches the codec: [encode_command] ends with
    status 1, and within the character bound its one text is the UTF-8
    error. *)
Theorem encode_command_refuses_surrogates
    (codec : Codec) (rt : Runtime) (input_data : str) (c : char) :
  In c input_data -> is_surrogate c = true ->
  (forall data, ~ In (Call_encode data) (fst (encode_command codec rt input_data)))
  /\ exit_status (snd (encode_command codec rt input_data)) = 1%Z
  /\ (length input_data <= _MAX_ENCODE_INPUT_LENGTH ->
      console_accepts rt (lit "Error: Cannot encode input as UTF-8: "
                            ++ unicode_error_text rt input_data) = true ->
      printed (fst (encode_command codec rt input_data))
      = [lit "Error: Cannot encode input as UTF-8: "
           ++ unicode_error_text rt input_data]).
Proof.
  intros Hin Hs.
  assert (Hu : utf8_encode input_data = None).
  { apply utf8_encode_None. exists c. split; [exact Hin|].
    apply utf8_encode_char_None. left. exact Hs. }
  destruct (Nat.ltb_spec _MAX_ENCODE_INPUT_LENGTH (length input_data)) as [Hlong|Hfit].
  - unfold encode_command. rewrite (proj2 (Nat.ltb_lt _ _) Hlong), bind_exit.
    rewrite report_status, report_run.
    split; [|split; [reflexivity | intros Hle; lia]].
    intros data. destruct (console_accepts rt _); cbn [fst].
    + intros [H|[]]. discriminate H.
    + intros [].
  - rewrite (encode_command_run codec rt input_data Hfit), Hu.
    rewrite report_status, report_run.
    split; [|split; [reflexivity|]].
    + intros data. destruct (console_accepts rt _); cbn [fst].
      * intros [H|[]]. discriminate H.
      * intros [].
    + intros _ Hc. rewrite Hc. reflexivity.
Qed.

Lemma encode_command_refuses_surrogates_witness :
  (forall data,
      ~ In (Call_encode data)
          (fst (encode_command spec_codec utf8_console [97%N; 0xDC80%N])))
  /\ exit_status (snd (encode_command spec_codec utf8_console [97%N; 0xDC80%N])) = 1%Z.
Proof.
  destruct (encode_command_refuses_surrogates spec_codec utf8_console
              [97%N; 0xDC80%N] 0xDC80%N) as (H1 & H2 & _).
  - right. left. reflexivity.
  - reflexivity.
  - split; [exact H1 | exact H2].
Defined.

(** X7. The only bytes [encode_command] hands to the codec are the UTF-8
    encoding of an argument of at most 2048 characters: at least as many bytes
    as characters and at most four times as many, hence never more than
    4 * 2048 = 8192. *)
Theorem encode_command_passes_utf8_bytes
    (codec : Codec) (rt : Runtime) (input_data : str) (data : bytes) :
  In (Call_encode data) (fst (encode_command codec rt input_data)) ->
  length input_data <= _MAX_ENCODE_INPUT_LENGTH
  /\ utf8_encode input_data = Some data
  /\ length input_data <= length data <= 4 * length input_data
  /\ length data <= 4 * _MAX_ENCODE_INPUT_LENGTH.
Proof.
  intros Hin.
  assert (Hrep : forall t,
             ~ In (Call_encode data)
                 (fst (bind (print rt t) (fun _ => @sys_exit unit 1%Z)))).
  { intros t. rewrite report_run. destruct (console_accepts rt t); cbn [fst].
    - intros [H|[]]. discriminate H.
    - intros []. }
  destruct (Nat.ltb_spec _MAX_ENCODE_INPUT_LENGTH (length input_data)) as [Hlong|Hfit].
  { exfalso. revert Hin. unfold encode_command.
    rewrite (proj2 (Nat.ltb_lt _ _) Hlong), bind_exit. apply Hrep. }
  rewrite (encode_command_run codec rt input_data Hfit) in Hin.
  destruct (utf8_encode input_data) as [data'|] eqn:Hu;
    [|contradiction (Hrep _ Hin)].
  assert (E : data' = data).
  { cbn [bind] in Hin.
    destruct (codec_encode codec data') as [encoded|e].
    - destruct (console_accepts rt encoded).
      + cbn [fst app] in Hin. destruct Hin as [H|[H|[]]]; congruence.
      + pose proof (Hrep (lit "Error: Cannot encode input as UTF-8: "
                            ++ unicode_error_text rt encoded)) as Hr.
        destruct (bind (print rt _) _) as [tr o]. cbn [fst app] in *.
        destruct Hin as [H|H]; [congruence | contradiction].
    - pose proof (Hrep (lit "Error: " ++ error_text codec e)) as Hr.
      destruct (bind (print rt _) _) as [tr o]. cbn [fst app] in *.
      destruct Hin as [H|H]; [congruence | contradiction]. }
  subst data'. pose proof (utf8_encode_length input_data data Hu) as Hl.
  split; [exact Hfit|]. split; [reflexivity|]. split; [exact Hl|].
  unfold _MAX_ENCODE_INPUT_LENGTH in *. lia.
Qed.

Lemma encode_command_passes_utf8_bytes_witness :
  length [0x1F30D%N; 0x4F60%N] <= _MAX_ENCODE_INPUT_LENGTH
  /\ utf8_encode [0x1F30D%N; 0x4F60%N]
     = Some [Byte.xf0; Byte.x9f; Byte.x8c; Byte.x8d; Byte.xe4; Byte.xbd; Byte.xa0]
  /\ length [0x1F30D%N; 0x4F60%N]
     <= length [Byte.xf0; Byte.x9f; Byte.x8c; Byte.x8d; Byte.xe4; Byte.xbd; Byte.xa0]
     <= 4 * length [0x1F30D%N; 0x4F60%N]
  /\ length [Byte.xf0; Byte.x9f; Byte.x8c; Byte.x8d; Byte.xe4; Byte.xbd; Byte.xa0]
     <= 4 * _MAX_ENCODE_INPUT_LENGTH.
Proof.
  apply (encode_command_passes_utf8_bytes spec_codec utf8_console
           [0x1F30D%N; 0x4F60%N]
           [Byte.xf0; Byte.x9f; Byte.x8c; Byte.x8d; Byte.xe4; Byte.xbd; Byte.xa0]).
  left. reflexivity.
Defined.

(** X8. When the codec decodes the argument but the bytes cannot be shown,
    [decode_command] says which way: bytes that are not UTF-8 give the message
    about invalid UTF-8, a text the console refuses gives the message about the
    console encoding; both end with status 1 and print nothing else. *)
Theorem decode_command_undisplayable
    (codec : Codec) (rt : Runtime) (smax : str) (input_data : str) (decoded : bytes) :
  codec_encode codec (repeat Byte.x61 _MAX_ENCODE_INPUT_LENGTH) = Ok smax ->
  length input_data <= length smax ->
  codec_decode codec input_data = Ok decoded ->
  (utf8_decode decoded = None ->
   console_accepts rt (lit "Error: Decoded data is not valid UTF-8") = true ->
   printed (fst (decode_command codec rt input_data))
   = [lit "Error: Decoded data is not valid UTF-8"]
   /\ snd (decode_command codec rt input_data) = Exited 1%Z)
  /\ (forall result,
         utf8_decode decoded = Some result ->
         console_accepts rt result = false ->
         console_accepts rt (lit "Error: Cannot display decoded data in current console encoding") = true ->
         printed (fst (decode_command codec rt input_data))
         = [lit "Error: Cannot display decoded data in current console encoding"]
         /\ snd (decode_command codec rt input_data) = Exited 1%Z).
Proof.
  intros Hmax Hfit Hd.
  rewrite (decode_command_run codec rt smax input_data Hmax Hfit), Hd.
  split.
  - intros Hu Hc. rewrite Hu, report_run, Hc. split; reflexivity.
  - intros result Hu Hr Hc. rewrite Hu, Hr, report_run, Hc. split; reflexivity.
Qed.

Lemma decode_command_undisplayable_witness :
  printed (fst (decode_command spec_codec utf8_console (lit "5Q")))
  = [lit "Error: Decoded data is not valid UTF-8"]
  /\ snd (decode_command spec_codec utf8_console (lit "5Q")) = Exited 1%Z.
Proof.
  apply (decode_command_undisplayable spec_codec utf8_console
           (Base58.encode_digits (repeat Byte.x61 _MAX_ENCODE_INPUT_LENGTH))
           (lit "5Q") [Byte.xff]).
  - exact spec_codec_max.
  - rewrite (proj2 spec_max_encoding). cbn [length lit map list_ascii_of_string]. lia.
  - exact spec_decode_5Q.
  - reflexivity.
  - reflexivity.
Defined.

(** X9. Round trip on the command line: when the codec gives back the bytes it
    encoded and the encoding fits the decode bound, [encode_command] prints
    the encoding of the argument and [decode_command], run on that output,
    prints the argument again; both return normally. *)
Theorem cli_round_trip
    (codec : Codec) (rt : Runtime) (smax : str)
    (input_data : str) (data : bytes) (encoded : str) :
  codec_encode codec (repeat Byte.x61 _MAX_ENCODE_INPUT_LENGTH) = Ok smax ->
  length input_data <= _MAX_ENCODE_INPUT_LENGTH ->
  utf8_encode input_data = Some data ->
  codec_encode codec data = Ok encoded ->
  codec_decode codec encoded = Ok data ->
  length encoded <= length smax ->
  console_accepts rt encoded = true ->
  console_accepts rt input_data = true ->
  encode_command codec rt input_data
  = ([Call_encode data; Output encoded], Returned tt)
  /\ decode_command codec rt encoded
     = ([Call_encode (repeat Byte.x61 _MAX_ENCODE_INPUT_LENGTH);
         Call_decode encoded; Output input_data], Returned tt).
Proof.
  intros Hmax Hlen Hu He Hd Hfit Hc1 Hc2. split.
  - rewrite (encode_command_run codec rt input_data Hlen), Hu, He, Hc1. reflexivity.
  - rewrite (decode_command_run codec rt smax encoded Hmax Hfit), Hd.
    rewrite (utf8_decode_encode input_data data Hu), Hc2. reflexivity.
Qed.

Lemma cli_round_trip_witness :
  exists data encoded,
    encode_command spec_codec utf8_console [0x4F60%N; 0x597D%N; 33%N]
    = ([Call_encode data; Output encoded], Returned tt)
    /\ decode_command spec_codec utf8_console encoded
       = ([Call_encode (repeat Byte.x61 _MAX_ENCODE_INPUT_LENGTH);
           Call_decode encoded; Output [0x4F60%N; 0x597D%N; 33%N]], Returned tt).
Proof.
  assert (Hu : utf8_encode [0x4F60%N; 0x597D%N; 33%N]
               = Some [Byte.xe4; Byte.xbd; Byte.xa0; Byte.xe5; Byte.xa5; Byte.xbd;
                       Byte.x21]) by reflexivity.
  assert (Hb : length [Byte.xe4; Byte.xbd; Byte.xa0; Byte.xe5; Byte.xa5; Byte.xbd;
                       Byte.x21] <= _MAX_ENCODE_INPUT_LENGTH)
    by (unfold _MAX_ENCODE_INPUT_LENGTH; cbn [length]; lia).
  destruct (spec_codec_round_trip
              [Byte.xe4; Byte.xbd; Byte.xa0; Byte.xe5; Byte.xa5; Byte.xbd; Byte.x21])
    as (He & Hd & Hl); [discriminate | exact Hb |].
  eexists _, _.
  apply (cli_round_trip spec_codec utf8_console
           (Base58.encode_digits (repeat Byte.x61 _MAX_ENCODE_INPUT_LENGTH))
           [0x4F60%N; 0x597D%N; 33%N] _ _ spec_codec_max).
  - unfold _MAX_ENCODE_INPUT_LENGTH. cbn [length]. lia.
  - exact Hu.
  - exact He.
  - exact Hd.
  - rewrite (proj2 spec_max_encoding). exact Hl.
  - reflexivity.
  - reflexivity.
Defined.
